(** * Menu containers and the Windows tab container of nativeui

    A shallow embedding of [nativeui/menu_base.cc] and
    [nativeui/win/tab_win.cc], with the properties of the menu container
    ([MenuBase]) and of the tab container ([TabImpl]) stated over it.

    Conventions of the embedding:
    - a C++ [int] is a [Z] (signed overflow is undefined behaviour in C++
      and is not modelled); container sizes are [nat] lengths, converted
      with [Z.of_nat] where the code converts them;
    - a pointer to a heap object is a [positive] naming the object; a
      pointer that may be null is an [option];
    - objects shared between several owners (menu items, page views) live
      in a store ([gmap]); objects owned by exactly one vector (tab items,
      held by [unique_ptr]) are records in a list that carry their address;
    - a [float] is a rational ([Q]); the implicit conversion of a float to an
      [int] parameter truncates toward zero;
    - calls that leave the code under study (the platform peer of a menu,
      repaint requests, signal emission) are appended to a log, oldest
      first. *)

From stdpp Require Import base numbers option list gmap strings.
From Stdlib Require Import ZArith QArith Qround Lia.

Local Open Scope Z_scope.

(** ** nativeui/menu_base.cc *)

Module Menu.

(** Identity of a [MenuItem] object and of a [MenuBase] object. *)
Definition MenuItemPtr := positive.
Definition MenuPtr := positive.

(** What the platform peer can observe of the logical state at the moment
    one of its entry points is called: the item sequence of the menu and
    the backlink of the item passed to it. *)
Record Observed := {
  seen_items : list MenuItemPtr;
  seen_menu : option MenuPtr
}.

(** Calls into the platform-specific half of [MenuBase]. *)
Inductive PeerCall :=
| PlatformInit
| PlatformInsert (item : MenuItemPtr) (index : Z) (o : Observed)
| PlatformRemove (item : MenuItemPtr) (o : Observed).

(** A [MenuBase] object together with the part of the heap it works on.
    [items_] is the vector of the class; it only ever receives pointers
    that passed the null test of [Insert], so its elements are non-null
    pointers. [item_menu] holds the backlink of every [MenuItem] of the
    program, a missing key being a null backlink. [peer] is the log of the
    calls received by the platform half. *)
Record World := {
  items_ : list MenuItemPtr;
  item_menu : gmap MenuItemPtr MenuPtr;
  peer : list PeerCall
}.

(** [std::find(first, last, value)], as the offset of the returned iterator
    from [first]: the position of the first element equal to [value], or
    the length of the range when there is none (the [end] iterator). *)
Fixpoint find (l : list MenuItemPtr) (item : MenuItemPtr) : nat :=
  match l with
  | [] => 0%nat
  | x :: l' => if decide (x = item) then 0%nat else S (find l' item)
  end.

(** [items_.insert(items_.begin() + index, item)]. *)
Definition vector_insert (l : list MenuItemPtr) (index : nat)
    (item : MenuItemPtr) : list MenuItemPtr :=
  take index l ++ item :: drop index l.

Section MenuBase.

(** The [this] pointer of the menu whose methods run. *)
Variable this : MenuPtr.

(** [MenuBase::MenuBase]: the vector starts empty and the platform half is
    initialised. The store of menu items is the one of the program. *)
Definition MenuBase_new (store : gmap MenuItemPtr MenuPtr) : World :=
  {| items_ := []; item_menu := store; peer := [PlatformInit] |}.

(** Modelled from the spec: [item_count()], declared in the header of the
    class, outside the sources at hand, is the count of the items in the
    sequence, as an [int]. *)
Definition item_count (w : World) : Z := Z.of_nat (length (items_ w)).

(** Modelled from the spec: the class [MenuItem] is defined outside the
    sources at hand. An item has at most one owning menu, read by
    [item->menu()]; the back-reference is set and cleared by the container
    that holds the item, through [item->set_menu(m)]. *)
Definition menu (item : MenuItemPtr) (w : World) : option MenuPtr :=
  item_menu w !! item.

Definition set_menu (item : MenuItemPtr) (m : option MenuPtr)
    (store : gmap MenuItemPtr MenuPtr) : gmap MenuItemPtr MenuPtr :=
  match m with
  | Some m => <[item := m]> store
  | None => delete item store
  end.

Definition observe (item : MenuItemPtr) (w : World) : Observed :=
  {| seen_items := items_ w; seen_menu := menu item w |}.

(** [MenuBase::Insert]. *)
Definition Insert (item : option MenuItemPtr) (index : Z) (w : World) : World :=
  match item with
  | None => w
  | Some it =>
      if bool_decide (is_Some (menu it w)) || (index <? 0)
         || (index >? item_count w)
      then w
      else
        let w1 := {| items_ := vector_insert (items_ w) (Z.to_nat index) it;
                     item_menu := item_menu w;
                     peer := peer w |} in
        let w2 := {| items_ := items_ w1;
                     item_menu := set_menu it (Some this) (item_menu w1);
                     peer := peer w1 |} in
        {| items_ := items_ w2;
           item_menu := item_menu w2;
           peer := peer w2 ++ [PlatformInsert it index (observe it w2)] |}
  end.

(** [MenuBase::Append]. *)
Definition Append (item : option MenuItemPtr) (w : World) : World :=
  Insert item (item_count w) w.

(** [MenuBase::Remove]. A null [item] is never found, the vector holding no
    null pointer. *)
Definition Remove (item : option MenuItemPtr) (w : World) : World :=
  match item with
  | None => w
  | Some it =>
      let i := find (items_ w) it in
      if decide (i = length (items_ w)) then w
      else
        let w1 := {| items_ := items_ w;
                     item_menu := item_menu w;
                     peer := peer w ++ [PlatformRemove it (observe it w)] |} in
        let w2 := {| items_ := items_ w1;
                     item_menu := set_menu it None (item_menu w1);
                     peer := peer w1 |} in
        {| items_ := delete i (items_ w2);
           item_menu := item_menu w2;
           peer := peer w2 |}
  end.

(** The guard of [Insert], read as the ways a call is refused: a null
    item, an item that a menu owns already, an index below 0 or above the
    count. *)
Definition refused (item : option MenuItemPtr) (index : Z) (w : World) : Prop :=
  item = None
  ∨ (∃ it, item = Some it ∧ is_Some (menu it w))
  ∨ index < 0
  ∨ item_count w < index.

(** A menu is fresh when it has just been constructed: no item of the
    program can point back to it yet. *)
Definition fresh (w : World) : Prop :=
  ∃ store, w = MenuBase_new store ∧ ∀ it, store !! it ≠ Some this.

(** States of the menu that the three public mutators can produce. *)
Inductive reachable : World → Prop :=
| reach_fresh w : fresh w → reachable w
| reach_Append w item : reachable w → reachable (Append item w)
| reach_Insert w item index : reachable w → reachable (Insert item index w)
| reach_Remove w item : reachable w → reachable (Remove item w).

(** The representation invariant of the container. *)
Definition owned_iff_listed (w : World) : Prop :=
  ∀ it, menu it w = Some this ↔ it ∈ items_ w.

Definition menu_inv (w : World) : Prop :=
  NoDup (items_ w) ∧ owned_iff_listed w.

End MenuBase.

(** A platform peer that mirrors the calls it receives into a native
    sequence of its own: an insert splices the item at the index it is
    given, a remove erases the item by identity. *)
Fixpoint erase_first (l : list MenuItemPtr) (item : MenuItemPtr)
    : list MenuItemPtr :=
  match l with
  | [] => []
  | x :: l' => if decide (x = item) then l' else x :: erase_first l' item
  end.

Definition mirror (native : list MenuItemPtr) (call : PeerCall)
    : list MenuItemPtr :=
  match call with
  | PlatformInit => []
  | PlatformInsert item index _ => vector_insert native (Z.to_nat index) item
  | PlatformRemove item _ => erase_first native item
  end.

Definition mirrored (calls : list PeerCall) : list MenuItemPtr :=
  foldl mirror [] calls.

(** What a call of the platform peer could rely on when it was made: the
    item passed to it pointed back to the menu [this] and was in the
    sequence, for an insert at the index passed. *)
Definition call_consistent (this : MenuPtr) (call : PeerCall) : Prop :=
  match call with
  | PlatformInit => False
  | PlatformInsert item index o =>
      seen_menu o = Some this
      ∧ 0 ≤ index ∧ seen_items o !! Z.to_nat index = Some item
  | PlatformRemove item o =>
      seen_menu o = Some this ∧ item ∈ seen_items o
  end.

(** A menu to run: the menu at address [1] holding the items [5] and [6],
    while item [9] belongs to another menu, [2]. *)
Definition a_menu : World :=
  Append 1%positive (Some 6%positive)
    (Append 1%positive (Some 5%positive)
       (MenuBase_new (<[9%positive := 2%positive]> ∅))).

End Menu.

(** ** nativeui/win/tab_win.cc *)

Module TabWin.

(** *** Values *)

(** Addresses of [TabItem] objects and of page [View] objects; a [Font] is
    known by the address of the font object, a [Color] by its 32-bit
    value. *)
Definition ItemPtr := positive.
Definition ViewPtr := positive.
Definition Font := positive.
Definition Color := N.

Record SizeF := { widthF : Q; heightF : Q }.
Record Size := { width : Z; height : Z }.
Record Point := { x : Z; y : Z }.
Record Rect := { origin : Point; extent : Size }.

(** Conversion of a [float] argument to an [int] parameter. *)
Definition to_int (q : Q) : Z := Z.quot (Qnum q) (Z.pos (Qden q)).

(** Modelled from the spec: the geometry helpers of [nativeui/gfx/geometry]
    ([ToCeiledSize], [Size::Enlarge], [Rect::Offset], [Rect::set_height],
    [Rect::Inset]) are defined outside
    the sources at hand. A measured size is rounded up to integers, a size
    is inflated by a padding, a rectangle is moved by an offset and inset
    by margins on its four sides. Sizes are never negative here, and no
    clamping at zero is modelled. *)
Definition ToCeiledSize (s : SizeF) : Size :=
  {| width := Qceiling (widthF s); height := Qceiling (heightF s) |}.

Definition Enlarge (grow_width grow_height : Z) (s : Size) : Size :=
  {| width := width s + grow_width; height := height s + grow_height |}.

Definition Offset (dx dy : Z) (r : Rect) : Rect :=
  {| origin := {| x := x (origin r) + dx; y := y (origin r) + dy |};
     extent := extent r |}.

Definition set_height (h : Z) (r : Rect) : Rect :=
  {| origin := origin r;
     extent := {| width := width (extent r); height := h |} |}.

Definition Inset (left top right bottom : Z) (r : Rect) : Rect :=
  {| origin := {| x := x (origin r) + left; y := y (origin r) + top |};
     extent := {| width := width (extent r) - left - right;
                  height := height (extent r) - top - bottom |} |}.

Definition Inset2 (horizontal vertical : Z) (r : Rect) : Rect :=
  Inset horizontal vertical horizontal vertical r.

(** *** Objects *)

Inductive ControlState := Normal | Hovered | Pressed.

(** Modelled from the spec: the base class [ViewImpl] is defined outside
    the sources at hand. This is the part of it that the tab code reads
    through [font()], [color()], [scale_factor()], [size_allocation()] and
    [state()]; [ViewImpl::SetFont], [ViewImpl::SetColor],
    [set_size_allocation] and [SetState] store the property they are
    given. *)
Record ViewImpl := {
  font : Font;
  color : Color;
  scale_factor : Q;
  size_allocation : Rect;
  state : ControlState
}.

Definition ViewImpl_SetFont (f : Font) (v : ViewImpl) : ViewImpl :=
  {| font := f; color := color v; scale_factor := scale_factor v;
     size_allocation := size_allocation v; state := state v |}.

Definition ViewImpl_SetColor (c : Color) (v : ViewImpl) : ViewImpl :=
  {| font := font v; color := c; scale_factor := scale_factor v;
     size_allocation := size_allocation v; state := state v |}.

Definition set_size_allocation (r : Rect) (v : ViewImpl) : ViewImpl :=
  {| font := font v; color := color v; scale_factor := scale_factor v;
     size_allocation := r; state := state v |}.

Definition SetState (s : ControlState) (v : ViewImpl) : ViewImpl :=
  {| font := font v; color := color v; scale_factor := scale_factor v;
     size_allocation := size_allocation v; state := s |}.

(** The closure stored in [TabItem::on_select]. The only one the code ever
    stores is the lambda of [AddPage], which calls [SetSelectedItem]. *)
Inductive Callback := CallSetSelectedItem.

(** A [TabItem]. [get] is the address of the object, what
    [items_[i].get()] returns. *)
Record TabItem := {
  get : ItemPtr;
  view : ViewImpl;
  selected_ : bool;
  title_ : string;
  size_ : Size;
  on_select : option Callback
}.

Definition with_view (f : ViewImpl → ViewImpl) (it : TabItem) : TabItem :=
  {| get := get it; view := f (view it); selected_ := selected_ it;
     title_ := title_ it; size_ := size_ it; on_select := on_select it |}.

(** Modelled from the spec: the class [View] is defined outside the
    sources at hand. A page is a [View] of the enclosing [Tab] widget,
    shown or hidden by [SetVisible], with a native [ViewImpl] ([GetNative])
    that is parented to the tab container or not ([SetParent]) and given
    its bounds by [SizeAllocate]. *)
Record View := {
  visible : bool;
  native : ViewImpl;
  parented : bool
}.

Definition View_SetVisible (b : bool) (v : View) : View :=
  {| visible := b; native := native v; parented := parented v |}.

Definition View_SetParent (b : bool) (v : View) : View :=
  {| visible := visible v; native := native v; parented := b |}.

Definition View_SizeAllocate (r : Rect) (v : View) : View :=
  {| visible := visible v; native := set_size_allocation r (native v);
     parented := parented v |}.

(** Calls that leave the tab container, and one marker for each run of
    [Layout]. *)
Inductive Event :=
| Invalidate_tab
| Invalidate_item (p : ItemPtr)
| Layout_run
| on_selected_page_change_Emit.

(** The fields of [TabImpl], with [base] for its [ViewImpl] part. *)
Record TabImpl := {
  base : ViewImpl;
  items_height_ : Z;
  selected_item_ : option ItemPtr;
  selected_item_index_ : Z;
  items_ : list TabItem
}.

(** The tab container in its surroundings: the page sequence of the
    enclosing [Tab] ([pages_], reference-counted pointers into [views]),
    the log of outgoing calls, and the next address that [new TabItem]
    returns. *)
Record World := {
  tab : TabImpl;
  pages_ : list ViewPtr;
  views : gmap ViewPtr View;
  log : list Event;
  next_item : ItemPtr
}.

Definition with_tab (f : TabImpl → TabImpl) (w : World) : World :=
  {| tab := f (tab w); pages_ := pages_ w; views := views w; log := log w;
     next_item := next_item w |}.

Definition with_views (f : gmap ViewPtr View → gmap ViewPtr View)
    (w : World) : World :=
  {| tab := tab w; pages_ := pages_ w; views := f (views w); log := log w;
     next_item := next_item w |}.

Definition with_pages (f : list ViewPtr → list ViewPtr) (w : World) : World :=
  {| tab := tab w; pages_ := f (pages_ w); views := views w; log := log w;
     next_item := next_item w |}.

Definition emit (e : Event) (w : World) : World :=
  {| tab := tab w; pages_ := pages_ w; views := views w;
     log := log w ++ [e]; next_item := next_item w |}.

Definition with_base (f : ViewImpl → ViewImpl) (t : TabImpl) : TabImpl :=
  {| base := f (base t); items_height_ := items_height_ t;
     selected_item_ := selected_item_ t;
     selected_item_index_ := selected_item_index_ t; items_ := items_ t |}.

Definition with_items_height (h : Z) (t : TabImpl) : TabImpl :=
  {| base := base t; items_height_ := h;
     selected_item_ := selected_item_ t;
     selected_item_index_ := selected_item_index_ t; items_ := items_ t |}.

Definition with_selection (p : option ItemPtr) (i : Z) (t : TabImpl) : TabImpl :=
  {| base := base t; items_height_ := items_height_ t;
     selected_item_ := p; selected_item_index_ := i; items_ := items_ t |}.

Definition with_items (f : list TabItem → list TabItem) (t : TabImpl) : TabImpl :=
  {| base := base t; items_height_ := items_height_ t;
     selected_item_ := selected_item_ t;
     selected_item_index_ := selected_item_index_ t; items_ := f (items_ t) |}.

(** A call through a [TabItem*]: the object at that address is updated. *)
Definition at_item (p : ItemPtr) (f : TabItem → TabItem)
    (l : list TabItem) : list TabItem :=
  (λ it, if decide (get it = p) then f it else it) <$> l.

(** [std::find_if] over [items_] with the test [it.get() == item], as the
    [std::distance] from [begin]: the length of the vector when no element
    has that address. *)
Fixpoint find_if (l : list TabItem) (item : ItemPtr) : nat :=
  match l with
  | [] => 0%nat
  | it :: l' => if decide (get it = item) then 0%nat else S (find_if l' item)
  end.

Definition kHPadding : Z := 2.
Definition kVPadding : Z := 1.
Definition kTPadding : Z := 1.
Definition kContentPadding : Z := 5.

(** *** Operations *)

Section TabImpl.

(** The text measurement service, [MeasureText(text, font)]. *)
Variable MeasureText : string → Font → SizeF.

(** The [ViewImpl] part of a [TabItem] that its constructor
    [ViewImpl(ControlType::View, nullptr)] has just built. *)
Variable new_view : ViewImpl.

(** What [ContainerImpl::OnDPIChanged], the method of the base class, does
    to the native view of a child, given the base part of the container.
    The base class reaches the children only as [ViewImpl*]. *)
Variable ContainerImpl_OnDPIChanged : ViewImpl → ViewImpl → ViewImpl.

(** [TabItem::SetTitle], the repaint request left to the caller's log. *)
Definition SetTitle (title : string) (it : TabItem) : TabItem :=
  let s := ToCeiledSize (MeasureText title (font (view it))) in
  let s := Enlarge
             (to_int (inject_Z (2 * kHPadding) * scale_factor (view it)))
             (to_int (inject_Z (2 * kVPadding) * scale_factor (view it))) s in
  {| get := get it; view := view it; selected_ := selected_ it;
     title_ := title; size_ := s; on_select := on_select it |}.

(** [TabItem::SetSelected]. *)
Definition SetSelected (selected : bool) (it : TabItem) : TabItem :=
  {| get := get it;
     view := SetState (if selected then Pressed else Normal) (view it);
     selected_ := selected; title_ := title_ it; size_ := size_ it;
     on_select := on_select it |}.

(** The object that [new TabItem] builds at address [p]. *)
Definition TabItem_new (p : ItemPtr) : TabItem :=
  {| get := p; view := new_view; selected_ := false; title_ := EmptyString;
     size_ := {| width := 0; height := 0 |}; on_select := None |}.

(** [TabImpl::TabImpl]: the initial values of the fields. *)
Definition TabImpl_new (v : ViewImpl) : TabImpl :=
  {| base := v; items_height_ := -1; selected_item_ := None;
     selected_item_index_ := -1; items_ := [] |}.

(** The strip height measured afresh, the right-hand side of the
    assignment in [GetItemsHeight]. *)
Definition measured_items_height (v : ViewImpl) : Z :=
  to_int (inject_Z (Qceiling (heightF (MeasureText "bp" (font v))))
          + inject_Z (2 * kVPadding + kTPadding) * scale_factor v
          + 1)%Q.

(** [TabImpl::GetItemsHeight]: the height, and the object with its
    [mutable] cache filled. *)
Definition GetItemsHeight (t : TabImpl) : Z * TabImpl :=
  if items_height_ t =? -1
  then let h := measured_items_height (base t) in (h, with_items_height h t)
  else (items_height_ t, t).

(** The loop of [Layout] over the items, from the one at offset [x0]. The
    loop reads the base part and the cache of [t] and fills the cache. *)
Fixpoint place_items (t : TabImpl) (x0 : Z) (l : list TabItem)
    : list TabItem * TabImpl :=
  match l with
  | [] => ([], t)
  | item :: l' =>
      let rect := {| origin := origin (size_allocation (base t));
                     extent := size_ item |} in
      let rect := Offset x0 0 rect in
      let '(h, t) := GetItemsHeight t in
      let rect := set_height h rect in
      let rect :=
        if selected_ item then rect
        else Inset 0 (to_int (inject_Z kTPadding * scale_factor (base t)))
                   0 0 rect in
      let item := with_view (set_size_allocation rect) item in
      let '(l'', t) := place_items t (x0 + width (extent rect)) l' in
      (item :: l'', t)
  end.

(** Modelled from the spec: [Tab::PageAt], a method of the enclosing widget
    that is defined outside the sources at hand, returns the page view for
    a tab index; [GetSelectedPage] tests its result against null, so it is
    null outside the page sequence. *)
Definition PageAt (index : Z) (w : World) : option ViewPtr :=
  if index <? 0 then None else pages_ w !! Z.to_nat index.

(** [TabImpl::GetSelectedPage]. *)
Definition GetSelectedPage (w : World) : option ViewPtr :=
  PageAt (selected_item_index_ (tab w)) w.

(** [TabImpl::Layout]. *)
Definition Layout (w : World) : World :=
  let w := emit Layout_run w in
  let '(l, t) := place_items (tab w) 0 (items_ (tab w)) in
  let w := with_tab (λ _, with_items (λ _, l) t) w in
  let w :=
    match GetSelectedPage w with
    | Some content =>
        let s := scale_factor (base (tab w)) in
        let rect := size_allocation (base (tab w)) in
        let rect := Inset2 (to_int (inject_Z kContentPadding * s))
                           (to_int (inject_Z kContentPadding * s)) rect in
        let '(h, t) := GetItemsHeight (tab w) in
        let rect := Inset 0 (to_int (inject_Z h - 1 * s)) 0 0 rect in
        with_views (alter (View_SizeAllocate rect) content)
                   (with_tab (λ _, t) w)
    | None => w
    end in
  emit Invalidate_tab w.

(** [TabImpl::SetSelectedItem]. The result is [None] where the code calls
    [SetVisible] through the null pointer that [PageAt] returned. *)
Definition SetSelectedItem (item : ItemPtr) (w : World) : option World :=
  w ← match selected_item_ (tab w) with
      | Some sel =>
          let w := with_tab (with_items (at_item sel (SetSelected false))) w in
          page ← PageAt (selected_item_index_ (tab w)) w;
          Some (with_views (alter (View_SetVisible false) page) w)
      | None => Some w
      end;
  let index := Z.of_nat (find_if (items_ (tab w)) item) in
  let w := with_tab (with_selection (Some item) index) w in
  let w := with_tab (with_items (at_item item (SetSelected true))) w in
  page ← PageAt (selected_item_index_ (tab w)) w;
  let w := with_views (alter (View_SetVisible true) page) w in
  let w := Layout w in
  Some (emit on_selected_page_change_Emit w).

(** [TabImpl::AddPage]. *)
Definition AddPage (title : string) (w : World) : option World :=
  let p := next_item w in
  let item := SetTitle title (TabItem_new p) in
  let item := {| get := get item; view := view item;
                 selected_ := selected_ item; title_ := title_ item;
                 size_ := size_ item;
                 on_select := Some CallSetSelectedItem |} in
  let w := {| tab := with_items (λ l, l ++ [item]) (tab w);
              pages_ := pages_ w; views := views w;
              log := log w ++ [Invalidate_item p];
              next_item := Pos.succ p |} in
  w ← (if decide (length (items_ (tab w)) = 1%nat)
       then first ← items_ (tab w) !! 0%nat; SetSelectedItem (get first) w
       else Some w);
  Some (Layout w).

(** [TabImpl::RemovePageAt]. The index computed by the modulo is below the
    size of the vector, so that [items_[selected_item_index_]] is an
    element of it. *)
Definition RemovePageAt (index : Z) (w : World) : World :=
  let n := length (items_ (tab w)) in
  if (index <? 0) || (Z.of_nat n <=? index) then w
  else
    let t := tab w in
    let t :=
      if index =? selected_item_index_ t then
        if decide (n = 1%nat) then with_selection None (-1) t
        else
          let next := (index + 1) `mod` Z.of_nat n in
          match items_ t !! Z.to_nat next with
          | Some it =>
              with_items (at_item (get it) (SetSelected true))
                         (with_selection (Some (get it)) next t)
          | None => t
          end
      else t in
    let t := with_items (delete (Z.to_nat index)) t in
    Layout (with_tab (λ _, t) w).

(** [TabImpl::SelectItemAt]. *)
Definition SelectItemAt (index : Z) (w : World) : option World :=
  if (index <? 0) || (Z.of_nat (length (items_ (tab w))) <=? index)
  then Some w
  else it ← items_ (tab w) !! Z.to_nat index; SetSelectedItem (get it) w.

(** [TabItem::OnMouseClick] on the item at address [item]:
    [handled_by_base] is what [ViewImpl::OnMouseClick] returned and
    [mouse_down] whether the event is a [MouseDown]. Calling an empty
    [std::function] gives no result. *)
Definition OnMouseClick (handled_by_base mouse_down : bool) (item : ItemPtr)
    (w : World) : option (bool * World) :=
  if handled_by_base then Some (true, w)
  else if mouse_down then
    it ← items_ (tab w) !! find_if (items_ (tab w)) item;
    cb ← on_select it;
    match cb with
    | CallSetSelectedItem => w ← SetSelectedItem item w; Some (true, w)
    end
  else Some (true, w).

(** [TabImpl::GetMinimumSize]: the size, and the object with the cache that
    [GetItemsHeight] may have filled. *)
Definition GetMinimumSize (t : TabImpl) : Size * TabImpl :=
  let width :=
    fold_left (λ a b, a + width (extent (size_allocation (view b))))
              (items_ t) 0 in
  let '(h, t) := GetItemsHeight t in
  let size := {| width := width; height := h |} in
  let grow :=
    to_int (inject_Z (2 * kContentPadding) * scale_factor (base t)) in
  (Enlarge grow grow size, t).

(** [TabImpl::SetFont]. *)
Definition SetFont (f : Font) (w : World) : World :=
  let w := with_tab (with_base (ViewImpl_SetFont f)) w in
  let w := with_tab (with_items (fmap (with_view (ViewImpl_SetFont f)))) w in
  let w := with_tab (with_items_height (-1)) w in
  Layout w.

(** [TabImpl::SetColor]. *)
Definition SetColor (c : Color) (w : World) : World :=
  let w := with_tab (with_base (ViewImpl_SetColor c)) w in
  let w := with_tab (with_items (fmap (with_view (ViewImpl_SetColor c)))) w in
  emit Invalidate_tab w.

(** [TabImpl::OnDPIChanged]: the method of the base class visits the items
    and the native views of the pages. *)
Definition OnDPIChanged (w : World) : World :=
  let b := base (tab w) in
  let w := with_tab (with_items
                       (fmap (with_view (ContainerImpl_OnDPIChanged b)))) w in
  let w := with_views (λ m, foldr (alter (λ v,
                         {| visible := visible v;
                            native := ContainerImpl_OnDPIChanged b (native v);
                            parented := parented v |})) m (pages_ w)) w in
  let w := with_tab (with_items_height (-1)) w in
  Layout w.

(** [Tab::PlatformAddPage]. *)
Definition PlatformAddPage (title : string) (view : ViewPtr) (w : World)
    : option World :=
  let w := with_views (alter (View_SetParent true) view) w in
  let w := if decide (0 < length (pages_ w))%nat
           then with_views (alter (View_SetVisible false) view) w
           else w in
  AddPage title w.

(** [Tab::PlatformRemovePage]. *)
Definition PlatformRemovePage (index : Z) (view : ViewPtr) (w : World) : World :=
  let w := with_views (alter (View_SetParent false) view) w in
  RemovePageAt index w.

(** [Tab::SelectPageAt] and [Tab::GetSelectedPageIndex]. *)
Definition SelectPageAt (index : Z) (w : World) : option World :=
  SelectItemAt index w.

Definition GetSelectedPageIndex (w : World) : Z :=
  selected_item_index_ (tab w).

(** *** Closed forms

    The definitions below restate parts of the operations above without
    the threading of the cache; the properties of the operations are proved
    through them. *)

(** What [GetItemsHeight] returns. *)
Definition strip_height (t : TabImpl) : Z :=
  if items_height_ t =? -1 then measured_items_height (base t)
  else items_height_ t.

(** The rectangle that the loop of [Layout] gives to an item placed at
    offset [x0], for a strip of height [h]. *)
Definition item_rect (b : ViewImpl) (h x0 : Z) (item : TabItem) : Rect :=
  let rect := set_height h
                (Offset x0 0 {| origin := origin (size_allocation b);
                                extent := size_ item |}) in
  if selected_ item then rect
  else Inset 0 (to_int (inject_Z kTPadding * scale_factor b)) 0 0 rect.

Fixpoint placed (b : ViewImpl) (h x0 : Z) (l : list TabItem) : list TabItem :=
  match l with
  | [] => []
  | item :: l' =>
      let rect := item_rect b h x0 item in
      with_view (set_size_allocation rect) item
        :: placed b h (x0 + width (extent rect)) l'
  end.

(** The rectangle that [Layout] gives to the selected page. *)
Definition content_rect (b : ViewImpl) (h : Z) : Rect :=
  let s := scale_factor b in
  Inset 0 (to_int (inject_Z h - 1 * s)) 0 0
    (Inset2 (to_int (inject_Z kContentPadding * s))
            (to_int (inject_Z kContentPadding * s)) (size_allocation b)).

(** The page that [SetSelectedItem] hides: the one at the selected index,
    when an item is selected. *)
Definition page_to_hide (w : World) : option ViewPtr :=
  match selected_item_ (tab w) with
  | Some _ => PageAt (selected_item_index_ (tab w)) w
  | None => None
  end.

(** The width allocated to an item, and the sum of a list of integers: the
    sum that [std::accumulate] computes in [GetMinimumSize]. *)
Definition allocated_width (it : TabItem) : Z :=
  width (extent (size_allocation (view it))).

Definition sum_Z (l : list Z) : Z := foldr Z.add 0 l.

(** An operation invalidates the cached strip height when it discards
    whatever the cache holds before anything reads it: its result is the
    one it gives on an empty cache. *)
Definition invalidates_items_height (op : World → World) : Prop :=
  ∀ w h, op (with_tab (with_items_height h) w)
         = op (with_tab (with_items_height (-1)) w).

(** The two halves of [SetSelectedItem]: the selected item is deselected
    and its page hidden; then the new item is selected and its page
    shown. *)
Definition deselect (w : World) : option World :=
  match selected_item_ (tab w) with
  | Some sel =>
      page ← PageAt (selected_item_index_ (tab w)) w;
      Some (with_views (alter (View_SetVisible false) page)
              (with_tab (with_items (at_item sel (SetSelected false))) w))
  | None => Some w
  end.

Definition select (item : ItemPtr) (w : World) : option World :=
  let index := Z.of_nat (find_if (items_ (tab w)) item) in
  page ← PageAt index w;
  Some (emit on_selected_page_change_Emit
          (Layout
             (with_views (alter (View_SetVisible true) page)
                (with_tab (with_items (at_item item (SetSelected true)))
                   (with_tab (with_selection (Some item) index) w))))).

(** Modelled from the spec: [Tab::AddPage] and [Tab::RemovePage], methods of
    the enclosing widget that are defined outside the sources at hand. The
    enclosing widget keeps the page sequence as long as the item sequence
    and in the same order: a page enters the sequence as its tab item is
    created and leaves it as its tab item is erased. *)
Definition Tab_AddPage (title : string) (view : ViewPtr) (w : World)
    : option World :=
  PlatformAddPage title view (with_pages (λ l, l ++ [view]) w).

Definition Tab_RemovePage (view : ViewPtr) (w : World) : World :=
  match list_find (λ p, p = view) (pages_ w) with
  | Some (i, _) =>
      with_pages (delete i) (PlatformRemovePage (Z.of_nat i) view w)
  | None => w
  end.

(** The pages of the sequence that are shown, in order. *)
Definition shown (w : World) (p : ViewPtr) : bool :=
  match views w !! p with
  | Some v => visible v
  | None => false
  end.

Definition visible_pages (w : World) : list ViewPtr :=
  List.filter (shown w) (pages_ w).

(** The selection invariant of the data model, as a test on a state: the
    selected index is -1, and then no page is shown, or it is an index into
    both the item sequence and the page sequence, and then the page at that
    index is the one page shown. *)
Definition index_valid (w : World) : bool :=
  let i := selected_item_index_ (tab w) in
  (i =? -1)
  || ((0 <=? i) && (i <? Z.of_nat (length (items_ (tab w))))
      && (i <? Z.of_nat (length (pages_ w)))).

Definition selected_page_shown (w : World) : bool :=
  match PageAt (selected_item_index_ (tab w)) w with
  | Some p => bool_decide (visible_pages w = [p])
  | None => bool_decide (visible_pages w = [])
  end.

Definition selection_inv (w : World) : bool :=
  index_valid w && selected_page_shown w.

(** *** The pointer over a tab item *)

(** Calls that leave a tab item while it handles the pointer: its repaint
    request, and the handlers of the base class that it forwards to. *)
Inductive ItemCall :=
| Item_Invalidate
| ViewImpl_OnMouseEnter
| ViewImpl_OnMouseLeave.

(** [TabItem::OnMouseEnter] and [TabItem::OnMouseLeave]: the item after the
    event, and the calls it made. *)
Definition OnMouseEnter (it : TabItem) : TabItem * list ItemCall :=
  let '(it, calls) :=
    if selected_ it then (it, [])
    else (with_view (SetState Hovered) it, [Item_Invalidate]) in
  (it, calls ++ [ViewImpl_OnMouseEnter]).

Definition OnMouseLeave (it : TabItem) : TabItem * list ItemCall :=
  let '(it, calls) :=
    if selected_ it then (it, [])
    else (with_view (SetState Normal) it, [Item_Invalidate]) in
  (it, calls ++ [ViewImpl_OnMouseLeave]).

(** A pointer that enters and leaves an item, any number of times. *)
Inductive PointerMove := Enter | Leave.

Definition pointer_move (it : TabItem) (m : PointerMove) : TabItem :=
  match m with
  | Enter => (OnMouseEnter it).1
  | Leave => (OnMouseLeave it).1
  end.

Definition pointer_moves (moves : list PointerMove) (it : TabItem) : TabItem :=
  foldl pointer_move it moves.

(** *** Children of the container *)

(** The address of a [ViewImpl] that the container can be asked about:
    the one of a tab item, or the native view of a page. *)
Inductive ViewImplPtr :=
| item_view (p : ItemPtr)
| page_native (v : ViewPtr).

#[global] Instance ViewImplPtr_eq_dec : EqDecision ViewImplPtr.
Proof. solve_decision. Defined.

(** [TabImpl::HasChild]; [child] may be null, like the result of
    [GetSelectedPage]. *)
Definition HasChild (child : option ViewImplPtr) (w : World) : bool :=
  if decide (child = page_native <$> GetSelectedPage w) then true
  else
    match child with
    | Some (item_view p) =>
        bool_decide (find_if (items_ (tab w)) p ≠ length (items_ (tab w)))
    | _ => false
    end.

(** The loop of [TabImpl::ForEach] over the indices it has still to go
    through: the views that [callback] was called on, in the order of the
    calls. The callback is a test without effect on the container. There
    is no result where the code calls [GetNative] through a null pointer
    that [PageAt] returned. *)
Fixpoint visit (callback : ViewImplPtr → bool) (w : World)
    (indices : list nat) : option (list ViewImplPtr) :=
  match indices with
  | [] => Some []
  | i :: indices' =>
      it ← items_ (tab w) !! i;
      let a := item_view (get it) in
      if callback a then
        page ← PageAt (Z.of_nat i) w;
        let b := page_native page in
        if callback b then (λ l, a :: b :: l) <$> visit callback w indices'
        else Some [a; b]
      else Some [a]
  end.

(** [TabImpl::ForEach]. *)
Definition ForEach (callback : ViewImplPtr → bool) (reverse : bool)
    (w : World) : option (list ViewImplPtr) :=
  match items_ (tab w) with
  | [] => Some []
  | _ =>
      let indices := seq 0 (length (items_ (tab w))) in
      visit callback w (if reverse then rev indices else indices)
  end.

(** The views of the container in the order of its indices, each item
    followed by its page; and the part of a list of views that a callback
    gets to see, up to the first view it answers [false] on. *)
Definition child_views (w : World) (indices : list nat) : list ViewImplPtr :=
  i ← indices;
  match items_ (tab w) !! i, pages_ w !! i with
  | Some it, Some page => [item_view (get it); page_native page]
  | _, _ => []
  end.

Fixpoint until_rejected (callback : ViewImplPtr → bool)
    (l : list ViewImplPtr) : list ViewImplPtr :=
  match l with
  | [] => []
  | a :: l' => if callback a then a :: until_rejected callback l' else [a]
  end.

(** *** The states of a tab container *)

(** Modelled from the spec: a change of the display scale. The code that
    stores the new scale factor is outside the sources at hand; the hook
    [OnDPIChanged] reads the new factor through [scale_factor()], so the
    base class has stored it when the hook runs. *)
Definition set_scale_factor (s : Q) (v : ViewImpl) : ViewImpl :=
  {| font := font v; color := color v; scale_factor := s;
     size_allocation := size_allocation v; state := state v |}.

(** The states that a tab container goes through from its construction:
    its operations run, the display scale changes, and the enclosing
    widget, which owns the pages, changes its page sequence and its views
    in between. *)
Inductive reachable : World → Prop :=
| reach_new v pages vs lg next :
    reachable {| tab := TabImpl_new v; pages_ := pages; views := vs;
                 log := lg; next_item := next |}
| reach_AddPage title w w' :
    reachable w → AddPage title w = Some w' → reachable w'
| reach_RemovePageAt index w :
    reachable w → reachable (RemovePageAt index w)
| reach_SelectItemAt index w w' :
    reachable w → SelectItemAt index w = Some w' → reachable w'
| reach_OnMouseClick handled_by_base mouse_down item w r :
    reachable w →
    OnMouseClick handled_by_base mouse_down item w = Some r → reachable r.2
| reach_SetFont f w : reachable w → reachable (SetFont f w)
| reach_SetColor c w : reachable w → reachable (SetColor c w)
| reach_OnDPIChanged s w :
    reachable w →
    reachable (OnDPIChanged (with_tab (with_base (set_scale_factor s)) w))
| reach_GetMinimumSize w :
    reachable w → reachable (with_tab (λ t, (GetMinimumSize t).2) w)
| reach_enclosing f g w :
    reachable w → reachable (with_pages f (with_views g w)).

(** What the items of a reachable container have in common: they are
    distinct objects that [new TabItem] returned, and each of them carries
    the selection callback. *)
Definition items_wired (w : World) : Prop :=
  Forall (λ it, on_select it = Some CallSetSelectedItem) (items_ (tab w)).

Definition items_distinct (w : World) : Prop :=
  NoDup (get <$> items_ (tab w))
  ∧ Forall (λ it, (get it < next_item w)%positive) (items_ (tab w)).

(** The cache of the strip height is empty or holds the height of the
    current font and scale. *)
Definition cache_coherent (t : TabImpl) : Prop :=
  items_height_ t = -1
  ∨ items_height_ t = measured_items_height (base t).

(** The selected index and the selected item agree: the item at the
    selected index is the selected item. *)
Definition selection_agrees (w : World) : Prop :=
  ∃ it, 0 ≤ selected_item_index_ (tab w)
        ∧ items_ (tab w) !! Z.to_nat (selected_item_index_ (tab w)) = Some it
        ∧ selected_item_ (tab w) = Some (get it).

End TabImpl.

(** *** A tab container to run *)

Module Run.

(** A text measurement that gives 7.5 pixels to a character and 15.5 to a
    line, on a display scaled by 1.25. *)
Definition MeasureText (text : string) (f : Font) : SizeF :=
  {| widthF := (15 # 2) * inject_Z (Z.of_nat (String.length text));
     heightF := 31 # 2 |}.

Definition a_view : ViewImpl :=
  {| font := 1%positive; color := 0%N; scale_factor := 5 # 4;
     size_allocation :=
       {| origin := {| x := 0; y := 0 |};
          extent := {| width := 300; height := 200 |} |};
     state := Normal |}.

Definition a_page : View :=
  {| visible := true; native := a_view; parented := false |}.

(** An empty tab container, and three views that the application has
    created for it. *)
Definition empty_tab : World :=
  {| tab := TabImpl_new a_view;
     pages_ := [];
     views := <[1%positive := a_page]>
                (<[2%positive := a_page]> (<[3%positive := a_page]> ∅));
     log := [];
     next_item := 1%positive |}.

Definition add (title : string) (view : ViewPtr) (w : World) : option World :=
  Tab_AddPage MeasureText a_view title view w.

Definition one_page : option World := add "A" 1%positive empty_tab.

Definition two_pages : option World := one_page ≫= add "B" 2%positive.

Definition three_pages : option World := two_pages ≫= add "C" 3%positive.

(** Three pages with the second one selected, then the second page
    removed. *)
Definition second_selected : option World :=
  three_pages ≫= SelectPageAt MeasureText 1.

Definition second_removed : option World :=
  Tab_RemovePage MeasureText 2%positive <$> second_selected.

(** Three pages with the last one selected, then the last page removed. *)
Definition last_selected : option World :=
  three_pages ≫= SelectPageAt MeasureText 2.

Definition last_removed : option World :=
  Tab_RemovePage MeasureText 3%positive <$> last_selected.

(** The same removal seen from the tab container alone, before the
    enclosing widget has erased the page from its sequence. *)
Definition second_item_removed : option World :=
  PlatformRemovePage MeasureText 1 2%positive <$> second_selected.

(** Two pages with the second one selected, then the first page removed. *)
Definition first_removed : option World :=
  Tab_RemovePage MeasureText 1%positive
    <$> (two_pages ≫= SelectPageAt MeasureText 1).

(** The states themselves, for the runs that succeed. *)
Definition one_page_world : World := default empty_tab one_page.

Definition reselected_world : World :=
  default empty_tab (SetSelectedItem MeasureText 1%positive one_page_world).

Definition one_registered_page : World :=
  with_pages (λ l, l ++ [1%positive]) empty_tab.

(** The state in which the first page is added: the enclosing widget has
    registered, parented and hidden the view. *)
Definition first_page_registered : World :=
  with_pages (λ l, l ++ [1%positive])
    (with_views (λ m, alter (View_SetVisible false) 1%positive
                        (alter (View_SetParent true) 1%positive m))
       empty_tab).

(** The item of the container with one page, and the container with three
    pages when the last one is selected, with its last item. *)
Definition first_item : TabItem :=
  default (TabItem_new a_view 1%positive)
          (items_ (tab one_page_world) !! 0%nat).

Definition last_selected_world : World := default empty_tab last_selected.

Definition last_item : TabItem :=
  default (TabItem_new a_view 1%positive)
          (items_ (tab last_selected_world) !! 2%nat).

(** What the selection looks like in a state: the selected index, the
    selected item, the addresses of the items, the page sequence and the
    pages shown. *)
Definition selection (w : World)
    : Z * option ItemPtr * list ItemPtr * list ViewPtr * list ViewPtr :=
  (GetSelectedPageIndex w, selected_item_ (tab w), get <$> items_ (tab w),
   pages_ w, visible_pages w).

End Run.

End TabWin.

(** * Properties of the menu container *)

Module MenuFacts.
Import Menu.

(** [std::find] returns [end] exactly for a value that is absent. *)
Lemma find_le (l : list MenuItemPtr) it : (find l it ≤ length l)%nat.
Proof. induction l as [|x l IH]; simpl; [lia|]. case_decide; lia. Qed.

Lemma find_absent (l : list MenuItemPtr) it :
  find l it = length l ↔ it ∉ l.
Proof.
  induction l as [|x l IH]; simpl.
  - split; [intros _; apply not_elem_of_nil | done].
  - case_decide as Hx; subst.
    + split; [done | intros []; left].
    + rewrite not_elem_of_cons. split.
      * intros [= H]. split; [congruence | by apply IH].
      * intros [_ H]. f_equal. by apply IH.
Qed.

(** The element that [std::find] stops at is the first one equal to the
    value: the vector splits around it. *)
Lemma find_split (l : list MenuItemPtr) it :
  it ∈ l →
  ∃ l1 l2, l = l1 ++ it :: l2 ∧ (it ∉ l1) ∧ find l it = length l1.
Proof.
  induction l as [|x l IH]; intros Hin.
  - by apply elem_of_nil in Hin.
  - simpl. case_decide as Hx; subst.
    + exists [], l. split_and!; [done | apply not_elem_of_nil | done].
    + apply elem_of_cons in Hin as [?|Hin]; [congruence|].
      destruct (IH Hin) as (l1 & l2 & -> & Hl1 & ->).
      exists (x :: l1), l2. split_and!; [done | | done].
      rewrite not_elem_of_cons. split; [congruence | done].
Qed.

Lemma find_app_fresh (l1 l2 : list MenuItemPtr) it :
  it ∉ l1 → find (l1 ++ it :: l2) it = length l1.
Proof.
  induction l1 as [|x l1 IH]; simpl; intros Hn.
  - by rewrite decide_True.
  - apply not_elem_of_cons in Hn as [Hx Hn].
    rewrite decide_False by congruence. by rewrite IH.
Qed.

Lemma delete_middle (l1 l2 : list MenuItemPtr) it :
  delete (length l1) (l1 ++ it :: l2) = l1 ++ l2.
Proof. induction l1 as [|x l1 IH]; simpl; [done | by rewrite IH]. Qed.

Lemma Insert_refused this item index w :
  refused item index w → Insert this item index w = w.
Proof.
  unfold Insert. destruct item as [it|]; [|done].
  intros [?|[(it' & [= <-] & Hown)|[Hneg|Hbig]]]; [done| | |].
  - by rewrite bool_decide_eq_true_2.
  - replace (index <? 0) with true by (symmetry; by apply Z.ltb_lt).
    by rewrite orb_true_r.
  - replace (index >? item_count w) with true
      by (symmetry; apply Z.gtb_lt; lia).
    by rewrite orb_true_r.
Qed.

Lemma Insert_accepted this it index w :
  menu it w = None → 0 ≤ index ≤ item_count w →
  Insert this (Some it) index w =
    {| items_ := vector_insert (items_ w) (Z.to_nat index) it;
       item_menu := <[it := this]> (item_menu w);
       peer := peer w ++
         [PlatformInsert it index
            {| seen_items := vector_insert (items_ w) (Z.to_nat index) it;
               seen_menu := Some this |}] |}.
Proof.
  intros Hfree [Hlo Hhi]. unfold Insert.
  rewrite bool_decide_eq_false_2 by (rewrite Hfree; by intros [? [=]]).
  replace (index <? 0) with false by (symmetry; apply Z.ltb_ge; lia).
  replace (index >? item_count w) with false
    by (symmetry; rewrite Z.gtb_ltb; apply Z.ltb_ge; lia).
  simpl. unfold observe, menu. simpl. by rewrite lookup_insert_eq.
Qed.

Lemma vector_insert_length (l : list MenuItemPtr) n it :
  length (vector_insert l n it) = S (length l).
Proof.
  unfold vector_insert. rewrite length_app. simpl.
  rewrite length_take, length_drop. lia.
Qed.

(** C3. [Insert(item, index)] changes nothing (the item sequence, the item
    count, every backlink and the calls made on the platform peer are the
    same) when [item] is null, when the item already has an owning menu,
    or when [index] is outside [[0, count]]. Otherwise the item is spliced
    into the sequence at [index], its backlink points to this menu, and the
    platform peer receives one insert at the same index, at a moment when it
    already sees the item in the sequence and the backlink set. *)
Theorem Insert_all_or_nothing this item index w :
  (refused item index w →
     Insert this item index w = w)
  ∧ (∀ it, item = Some it → menu it w = None → 0 ≤ index ≤ item_count w →
       let w' := Insert this item index w in
       let n := Z.to_nat index in
       items_ w' = take n (items_ w) ++ it :: drop n (items_ w)
       ∧ items_ w' !! n = Some it
       ∧ item_count w' = item_count w + 1
       ∧ menu it w' = Some this
       ∧ (∀ other, other ≠ it → menu other w' = menu other w)
       ∧ peer w' = peer w ++
           [PlatformInsert it index
              {| seen_items := items_ w'; seen_menu := Some this |}]).
Proof.
  split; [apply Insert_refused|].
  intros it -> Hfree Hidx. cbv zeta.
  rewrite (Insert_accepted this it index w Hfree Hidx). simpl.
  unfold item_count, menu in *. simpl.
  split_and!.
  - done.
  - unfold vector_insert. rewrite lookup_app_r; rewrite length_take; [|lia].
    replace (Z.to_nat index - _)%nat with 0%nat by lia. done.
  - rewrite vector_insert_length. lia.
  - by rewrite lookup_insert_eq.
  - intros other Hne. by rewrite lookup_insert_ne.
  - done.
Qed.

Lemma Remove_absent it w : it ∉ items_ w → Remove (Some it) w = w.
Proof.
  intros Habs. unfold Remove. rewrite decide_True; [done|].
  by apply find_absent.
Qed.

Lemma Remove_present it w before after :
  items_ w = before ++ it :: after → it ∉ before →
  Remove (Some it) w =
    {| items_ := before ++ after;
       item_menu := delete it (item_menu w);
       peer := peer w ++ [PlatformRemove it (observe it w)] |}.
Proof.
  destruct w as [l store calls]. cbn [items_]. intros -> Hb.
  unfold Remove. cbn [items_ item_menu peer].
  rewrite find_app_fresh by done.
  rewrite decide_False by (rewrite length_app; simpl; lia).
  by rewrite delete_middle.
Qed.

(** C4. [Remove(item)] changes nothing when the item is not in the
    sequence. When it is, the platform peer receives the remove first, at
    a moment when it still sees the whole sequence and the backlink as they
    were; then the backlink is null and the item is gone from the sequence,
    the other items keeping their order. *)
Theorem Remove_absent_or_present item w :
  ((∀ it, item = Some it → it ∉ items_ w) → Remove item w = w)
  ∧ (∀ it, item = Some it → it ∈ items_ w →
       let w' := Remove item w in
       (∃ before after,
           items_ w = before ++ it :: after ∧ (it ∉ before)
           ∧ items_ w' = before ++ after)
       ∧ menu it w' = None
       ∧ (∀ other, other ≠ it → menu other w' = menu other w)
       ∧ peer w' = peer w ++
           [PlatformRemove it
              {| seen_items := items_ w; seen_menu := menu it w |}]).
Proof.
  split.
  - destruct item as [it|]; [|done]. intros Habs.
    apply Remove_absent. by apply Habs.
  - intros it -> Hin. cbv zeta.
    destruct (find_split _ _ Hin) as (l1 & l2 & Hl & Hl1 & _).
    rewrite (Remove_present it w l1 l2 Hl Hl1). unfold menu, observe, menu.
    cbn [items_ item_menu peer]. split_and!.
    + by exists l1, l2.
    + by rewrite lookup_delete_eq.
    + intros other Hne. by rewrite lookup_delete_ne.
    + done.
Qed.

Lemma a_menu_reachable : reachable 1%positive a_menu.
Proof.
  do 2 apply reach_Append. apply reach_fresh. eexists. split; [done|].
  intros it. destruct (decide (it = 9%positive)) as [->|Hne].
  - by rewrite lookup_insert_eq.
  - rewrite lookup_insert_ne by done. by rewrite lookup_empty.
Qed.

Lemma Insert_all_or_nothing_witness :
  Insert 1%positive (Some 9%positive) 1 a_menu = a_menu
  ∧ items_ (Insert 1%positive (Some 7%positive) 1 a_menu)
    = [5%positive; 7%positive; 6%positive].
Proof.
  split.
  - apply (proj1 (Insert_all_or_nothing 1%positive (Some 9%positive) 1 a_menu)).
    right; left. exists 9%positive. split; [done | by eexists].
  - apply (proj2 (Insert_all_or_nothing 1%positive (Some 7%positive) 1 a_menu)
             7%positive); [done | done | by vm_compute].
Defined.

Lemma Remove_absent_or_present_witness :
  Remove (Some 9%positive) a_menu = a_menu
  ∧ menu 5%positive (Remove (Some 5%positive) a_menu) = None.
Proof.
  split.
  - apply (proj1 (Remove_absent_or_present (Some 9%positive) a_menu)).
    intros it [= <-].
    replace (items_ a_menu) with [5%positive; 6%positive] by by vm_compute.
    rewrite !not_elem_of_cons. split_and!; [done | done | apply not_elem_of_nil].
  - apply (proj2 (Remove_absent_or_present (Some 5%positive) a_menu)
             5%positive); [done|].
    replace (items_ a_menu) with [5%positive; 6%positive] by by vm_compute.
    left.
Defined.

(** Every call of [Insert] is either refused, or passes all the tests of
    the guard. *)
Lemma Insert_cases item index w :
  refused item index w
  ∨ (∃ it, item = Some it ∧ menu it w = None ∧ 0 ≤ index ≤ item_count w).
Proof.
  destruct item as [it|]; [|by left; left].
  destruct (menu it w) as [m|] eqn:Hm.
  { left. right. left. exists it. split; [done|]. rewrite Hm. by eexists. }
  destruct (decide (index < 0)); [left; do 2 right; by left|].
  destruct (decide (item_count w < index)); [left; do 3 right; done|].
  right. exists it. split_and!; [done | done | lia | lia].
Qed.

Lemma elem_of_vector_insert (l : list MenuItemPtr) n it other :
  other ∈ vector_insert l n it ↔ other = it ∨ other ∈ l.
Proof.
  unfold vector_insert. rewrite elem_of_app, elem_of_cons.
  rewrite <- (take_drop n l) at 3. rewrite elem_of_app. tauto.
Qed.

Lemma NoDup_vector_insert (l : list MenuItemPtr) n it :
  it ∉ l → NoDup l → NoDup (vector_insert l n it).
Proof.
  intros Hn Hnd. unfold vector_insert.
  rewrite <- (take_drop n l) in Hn, Hnd.
  apply NoDup_app in Hnd as (H1 & H2 & H3).
  apply not_elem_of_app in Hn as [Hn1 Hn2].
  apply NoDup_app. split_and!; [done | | ].
  - intros z Hz. rewrite not_elem_of_cons. split; [congruence | by apply H2].
  - by apply NoDup_cons.
Qed.

Lemma menu_inv_fresh this w : fresh this w → menu_inv this w.
Proof.
  intros (store & -> & Hstore). split; simpl.
  - apply NoDup_nil_2.
  - intros it. unfold menu. simpl. split.
    + intros H. by destruct (Hstore it).
    + intros H. by apply elem_of_nil in H.
Qed.

Lemma menu_inv_Insert this item index w :
  menu_inv this w → menu_inv this (Insert this item index w).
Proof.
  intros [Hnd Hown].
  destruct (Insert_cases item index w) as [Hr|(it & -> & Hfree & Hidx)].
  { by rewrite Insert_refused. }
  rewrite Insert_accepted by done.
  assert (it ∉ items_ w) as Hout.
  { intros Hin. apply Hown in Hin. congruence. }
  split; simpl.
  - by apply NoDup_vector_insert.
  - intros other. unfold menu. simpl. rewrite elem_of_vector_insert.
    destruct (decide (other = it)) as [->|Hne].
    + rewrite lookup_insert_eq. split; [by left | done].
    + rewrite lookup_insert_ne by done. rewrite (Hown other). tauto.
Qed.

Lemma menu_inv_Remove this item w :
  menu_inv this w → menu_inv this (Remove item w).
Proof.
  intros [Hnd Hown]. destruct item as [it|]; [|done].
  destruct (decide (it ∈ items_ w)) as [Hin|Hout].
  2:{ by rewrite Remove_absent. }
  destruct (find_split _ _ Hin) as (l1 & l2 & Hl & Hl1 & _).
  rewrite (Remove_present it w l1 l2 Hl Hl1).
  unfold menu_inv, owned_iff_listed, menu in *. cbn [items_ item_menu peer].
  rewrite Hl in Hnd, Hown.
  apply NoDup_app in Hnd as (H1 & H2 & H3). apply NoDup_cons in H3 as [H3 H4].
  split.
  - apply NoDup_app. split_and!; [done | | done].
    intros z Hz. specialize (H2 z Hz). rewrite not_elem_of_cons in H2. tauto.
  - intros other. destruct (decide (other = it)) as [->|Hne].
    + rewrite lookup_delete_eq. split; [done|].
      rewrite elem_of_app. tauto.
    + rewrite lookup_delete_ne by done. rewrite (Hown other).
      rewrite !elem_of_app, elem_of_cons. split; [|tauto].
      intros [?|[?|?]]; [by left | done | by right].
Qed.

Lemma reachable_menu_inv_aux this w : reachable this w → menu_inv this w.
Proof.
  induction 1 as [w Hf|w item Hr IH|w item index Hr IH|w item Hr IH].
  - by apply menu_inv_fresh.
  - by apply menu_inv_Insert.
  - by apply menu_inv_Insert.
  - by apply menu_inv_Remove.
Qed.

(** C10. In every state of a menu that [Append], [Insert] and [Remove]
    calls lead to from a fresh menu, no item occurs twice in the item
    sequence, and the backlink of an item points to this menu if and only
    if the item is in the sequence. *)
Theorem reachable_menu_inv this w :
  reachable this w →
  NoDup (items_ w) ∧ ∀ it, menu it w = Some this ↔ it ∈ items_ w.
Proof.
  intros Hr. exact (reachable_menu_inv_aux this w Hr).
Qed.

Lemma reachable_menu_inv_witness :
  NoDup (items_ a_menu)
  ∧ ∀ it, menu it a_menu = Some 1%positive ↔ it ∈ items_ a_menu.
Proof. exact (reachable_menu_inv 1%positive a_menu a_menu_reachable). Defined.

(** C9. From a state of the menu that its mutators lead to, for an item
    that no menu owns and an index [i] in [[0, count]]: [Insert(item, i)]
    followed by [Remove(item)] gives back the item sequence as it was,
    leaves the backlink of the item null and every other backlink as it
    was, and the platform peer has received exactly one insert at [i]
    followed by one remove of that item. *)
Theorem Insert_then_Remove this w it index :
  reachable this w → menu it w = None → 0 ≤ index ≤ item_count w →
  let w1 := Insert this (Some it) index w in
  let w2 := Remove (Some it) w1 in
  items_ w2 = items_ w
  ∧ menu it w2 = None
  ∧ item_menu w2 = item_menu w
  ∧ peer w2 = peer w ++
      [PlatformInsert it index
         {| seen_items := items_ w1; seen_menu := Some this |};
       PlatformRemove it
         {| seen_items := items_ w1; seen_menu := Some this |}].
Proof.
  intros Hr Hfree Hidx. cbv zeta.
  destruct (reachable_menu_inv_aux this w Hr) as [Hnd Hown].
  assert (it ∉ items_ w) as Hout.
  { intros Hin. apply Hown in Hin. congruence. }
  assert (it ∉ take (Z.to_nat index) (items_ w)) as Hout1.
  { intros Hin. apply Hout. by eapply subseteq_take. }
  rewrite Insert_accepted by done.
  erewrite Remove_present; [|reflexivity|exact Hout1].
  unfold menu, observe, menu in *. cbn [items_ item_menu peer].
  rewrite take_drop, lookup_insert_eq, lookup_delete_eq, <- app_assoc.
  split_and!; [done | done | | done].
  by apply delete_insert_id.
Qed.

Lemma Insert_then_Remove_witness :
  items_ (Remove (Some 7%positive) (Insert 1%positive (Some 7%positive) 1 a_menu))
  = items_ a_menu.
Proof.
  apply (Insert_then_Remove 1%positive a_menu 7%positive 1 a_menu_reachable);
    [done | by vm_compute].
Defined.

(** ** Further properties of the menu container *)

Lemma vector_insert_end (l : list MenuItemPtr) it :
  vector_insert l (Z.to_nat (Z.of_nat (length l))) it = l ++ [it].
Proof.
  unfold vector_insert. rewrite Nat2Z.id.
  by rewrite firstn_all, skipn_all.
Qed.

(** X1. [Append(item)] is never refused for its index: it changes nothing
    exactly when the item is null or already has an owning menu, and
    otherwise the item becomes the last of the sequence, points back to
    this menu, and the platform peer receives one insert at the old
    count. *)
Theorem Append_at_end this item w :
  (item = None ∨ (∃ it, item = Some it ∧ is_Some (menu it w)) →
     Append this item w = w)
  ∧ (∀ it, item = Some it → menu it w = None →
       items_ (Append this item w) = items_ w ++ [it]
       ∧ menu it (Append this item w) = Some this
       ∧ peer (Append this item w) = peer w ++
           [PlatformInsert it (item_count w)
              {| seen_items := items_ w ++ [it]; seen_menu := Some this |}]).
Proof.
  unfold Append. split.
  - intros H. apply Insert_refused. unfold refused. tauto.
  - intros it -> Hfree.
    rewrite Insert_accepted by (done || unfold item_count; lia).
    unfold item_count, menu. cbn [items_ item_menu peer].
    rewrite vector_insert_end, lookup_insert_eq. done.
Qed.

Lemma Insert_owned this it index w :
  is_Some (menu it w) → Insert this (Some it) index w = w.
Proof. intros H. apply Insert_refused. right; left. by exists it. Qed.

(** X2. An item cannot be inserted twice: once [Insert(item, i)] has taken
    the item, any further [Insert(item, j)] changes nothing, and in any
    state whatever a second [Append(item)] changes nothing after the
    first. *)
Theorem Insert_twice this item w :
  (∀ i j, ¬ refused item i w →
     Insert this item j (Insert this item i w) = Insert this item i w)
  ∧ Append this item (Append this item w) = Append this item w.
Proof.
  assert (∀ i j, ¬ refused item i w →
     Insert this item j (Insert this item i w) = Insert this item i w) as H.
  { intros i j Hok.
    destruct (Insert_cases item i w) as [?|(it & -> & Hfree & Hidx)]; [done|].
    rewrite (Insert_accepted this it i w) by done. apply Insert_owned.
    unfold menu. cbn [item_menu]. rewrite lookup_insert_eq. by eexists. }
  split; [exact H|].
  unfold Append at 2 3.
  destruct (Insert_cases item (item_count w) w) as [Hr|(it & -> & Hfree & _)].
  - rewrite Insert_refused by done. unfold Append. by apply Insert_refused.
  - unfold Append. apply H. unfold refused, item_count.
    intros [?|[(it' & [= <-] & Hown)|[?|?]]]; [done| |lia|lia].
    rewrite Hfree in Hown. by destruct Hown.
Qed.

Lemma erase_first_middle (l1 l2 : list MenuItemPtr) it :
  it ∉ l1 → erase_first (l1 ++ it :: l2) it = l1 ++ l2.
Proof.
  induction l1 as [|x l1 IH]; simpl; intros Hn.
  - by rewrite decide_True.
  - apply not_elem_of_cons in Hn as [Hx Hn].
    rewrite decide_False by congruence. by rewrite IH.
Qed.

Lemma mirrored_snoc calls call :
  mirrored (calls ++ [call]) = mirror (mirrored calls) call.
Proof. unfold mirrored. by rewrite foldl_app. Qed.

Lemma mirrored_Insert this item index w :
  mirrored (peer w) = items_ w →
  mirrored (peer (Insert this item index w))
  = items_ (Insert this item index w).
Proof.
  intros Hm.
  destruct (Insert_cases item index w) as [Hr|(it & -> & Hfree & Hidx)].
  { by rewrite Insert_refused. }
  rewrite Insert_accepted by done. cbn [peer items_].
  rewrite mirrored_snoc, Hm. done.
Qed.

(** X3. The platform peer stays in step with the menu: in every state
    that [Append], [Insert] and [Remove] lead to from a fresh menu, a peer
    that mirrors the calls it has received holds exactly the item
    sequence of the menu, in the same order. *)
Theorem peer_mirrors_items this w :
  reachable this w → mirrored (peer w) = items_ w.
Proof.
  intros Hr.
  induction Hr as [w (store & -> & _)|w item Hr IH|w item index Hr IH
                  |w item Hr IH].
  - done.
  - by apply mirrored_Insert.
  - by apply mirrored_Insert.
  - destruct item as [it|]; [|done].
    destruct (decide (it ∈ items_ w)) as [Hin|Hout].
    2:{ by rewrite Remove_absent. }
    destruct (find_split _ _ Hin) as (l1 & l2 & Hl & Hl1 & _).
    rewrite (Remove_present it w l1 l2 Hl Hl1). cbn [peer items_].
    rewrite mirrored_snoc, IH, Hl. cbn [mirror].
    by apply erase_first_middle.
Qed.

Lemma peer_mirrors_items_witness : mirrored (peer a_menu) = items_ a_menu.
Proof. exact (peer_mirrors_items 1%positive a_menu a_menu_reachable). Defined.

Lemma find_vector_insert (l : list MenuItemPtr) n it other :
  it ∉ l → (n ≤ length l)%nat →
  find (vector_insert l n it) other =
    if decide (other = it) then n
    else if decide (find l other < n)%nat then find l other
    else S (find l other).
Proof.
  unfold vector_insert. revert n.
  induction l as [|x l IH]; intros n Hn Hlen.
  - cbn in Hlen. replace n with 0%nat by lia. cbn.
    repeat case_decide; congruence || lia.
  - apply not_elem_of_cons in Hn as [Hx Hn].
    destruct n as [|n]; cbn [take drop app find].
    + repeat case_decide; congruence || lia.
    + cbn [length] in Hlen. rewrite IH by (done || lia).
      repeat case_decide; congruence || lia.
Qed.

(** X4. Looking an item up by identity after an insertion: from a state
    that the mutators lead to, after [Insert(item, i)] has taken the item,
    [std::find] meets the item at position [i]; every other item is met
    where it was when it stood before [i], and one position further
    otherwise. *)
Theorem find_after_Insert this w it index other :
  reachable this w → menu it w = None → 0 ≤ index ≤ item_count w →
  let w' := Insert this (Some it) index w in
  find (items_ w') it = Z.to_nat index
  ∧ (other ≠ it →
     find (items_ w') other =
       if decide (find (items_ w) other < Z.to_nat index)%nat
       then find (items_ w) other
       else S (find (items_ w) other)).
Proof.
  intros Hr Hfree Hidx. cbn zeta.
  destruct (reachable_menu_inv_aux this w Hr) as [Hnd Hown].
  assert (it ∉ items_ w) as Hout.
  { intros Hin. apply Hown in Hin. congruence. }
  rewrite Insert_accepted by done. cbn [items_]. unfold item_count in Hidx.
  split.
  - rewrite find_vector_insert by (done || lia). by rewrite decide_True.
  - intros Hne. rewrite find_vector_insert by (done || lia).
    by rewrite decide_False.
Qed.

Lemma find_after_Insert_witness :
  find (items_ (Insert 1%positive (Some 7%positive) 1 a_menu)) 7%positive
  = 1%nat.
Proof.
  apply (find_after_Insert 1%positive a_menu 7%positive 1 6%positive
           a_menu_reachable); [done | by vm_compute].
Defined.

Lemma NoDup_lookup_split (l : list MenuItemPtr) i it :
  NoDup l → l !! i = Some it →
  l = take i l ++ it :: drop (S i) l ∧ (it ∉ take i l)
  ∧ length (take i l) = i.
Proof.
  intros Hnd Hi. pose proof (lookup_lt_Some _ _ _ Hi) as Hlt.
  assert (l = take i l ++ it :: drop (S i) l) as Hl.
  { rewrite <- (take_drop_middle l i it Hi) at 1. done. }
  split_and!; [done | | rewrite length_take; lia].
  rewrite Hl in Hnd. apply NoDup_app in Hnd as (_ & H2 & _).
  intros Hin. apply (H2 _ Hin). left.
Qed.

(** X5. Taking an item out and putting it back where it was: from a state
    that the mutators lead to, for the item at position [i],
    [Remove(item)] followed by [Insert(item, i)] gives back the item
    sequence and all the backlinks, and the platform peer has received one
    remove of the item and then one insert at [i]. *)
Theorem Remove_then_Insert this w it i :
  reachable this w → items_ w !! i = Some it →
  let w1 := Remove (Some it) w in
  let w2 := Insert this (Some it) (Z.of_nat i) w1 in
  items_ w2 = items_ w
  ∧ item_menu w2 = item_menu w
  ∧ peer w2 = peer w ++
      [PlatformRemove it
         {| seen_items := items_ w; seen_menu := Some this |};
       PlatformInsert it (Z.of_nat i)
         {| seen_items := items_ w; seen_menu := Some this |}].
Proof.
  intros Hr Hi. cbn zeta.
  destruct (reachable_menu_inv_aux this w Hr) as [Hnd Hown].
  destruct (NoDup_lookup_split _ _ _ Hnd Hi) as (Hl & Hout & Hlen).
  assert (menu it w = Some this) as Hmenu.
  { apply Hown. by eapply list_elem_of_lookup_2. }
  rewrite (Remove_present it w _ _ Hl Hout).
  pose proof (lookup_lt_Some _ _ _ Hi) as Hlt.
  rewrite Insert_accepted.
  2:{ unfold menu. cbn [item_menu]. apply lookup_delete_eq. }
  2:{ unfold item_count. cbn [items_].
      rewrite length_app, length_take, length_drop. lia. }
  unfold observe, menu in *. cbn [items_ item_menu peer].
  rewrite Nat2Z.id. unfold vector_insert.
  rewrite take_app_length', drop_app_length' by done.
  rewrite <- Hl, Hmenu, <- app_assoc. split_and!; [done| |done].
  rewrite insert_delete_eq. by apply insert_id.
Qed.

Lemma Remove_then_Insert_witness :
  items_ (Insert 1%positive (Some 6%positive) 1
            (Remove (Some 6%positive) a_menu))
  = items_ a_menu.
Proof.
  apply (Remove_then_Insert 1%positive a_menu 6%positive 1%nat
           a_menu_reachable).
  by vm_compute.
Defined.

(** X6. Removing an item twice: from a state that the mutators lead to, a
    second [Remove(item)] changes nothing after the first, the platform
    peer being called once at most. *)
Theorem Remove_twice this w item :
  reachable this w →
  Remove item (Remove item w) = Remove item w.
Proof.
  intros Hr. destruct item as [it|]; [|done].
  destruct (reachable_menu_inv_aux this _ (reach_Remove this w (Some it) Hr))
    as [_ Hown].
  apply Remove_absent. intros Hin. apply Hown in Hin.
  destruct (decide (it ∈ items_ w)) as [Hin'|Hout].
  - destruct (find_split _ _ Hin') as (l1 & l2 & Hl & Hl1 & _).
    rewrite (Remove_present it w l1 l2 Hl Hl1) in Hin.
    unfold menu in Hin. cbn [item_menu] in Hin.
    by rewrite lookup_delete_eq in Hin.
  - rewrite Remove_absent in Hin by done.
    destruct (reachable_menu_inv_aux this w Hr) as [_ Hown'].
    by apply Hown' in Hin.
Qed.

Lemma Remove_twice_witness :
  Remove (Some 5%positive) (Remove (Some 5%positive) a_menu)
  = Remove (Some 5%positive) a_menu.
Proof. exact (Remove_twice 1%positive a_menu (Some 5%positive) a_menu_reachable). Defined.

Lemma lookup_vector_insert (l : list MenuItemPtr) n it :
  (n ≤ length l)%nat → vector_insert l n it !! n = Some it.
Proof.
  intros Hn. unfold vector_insert.
  rewrite lookup_app_r; rewrite length_take; [|lia].
  replace (n - _)%nat with 0%nat by lia. done.
Qed.

(** X7. What the platform peer can rely on: in every state that the
    mutators lead to from a fresh menu, the log of the peer starts with
    the one [PlatformInit] of the constructor, and every later call was
    made at a moment when the item passed to it pointed back to this menu
    and stood in the sequence (at the index passed, for an insert). *)
Theorem peer_calls_consistent this w :
  reachable this w →
  ∃ calls, peer w = PlatformInit :: calls
           ∧ Forall (call_consistent this) calls.
Proof.
  intros Hr. pose proof (reachable_menu_inv_aux this w Hr) as Hinv.
  induction Hr as [w (store & -> & _)|w item Hr IH|w item index Hr IH
                  |w item Hr IH].
  - exists []. by split.
  - destruct (IH (reachable_menu_inv_aux this w Hr)) as (calls & Hp & Hc).
    destruct (Insert_cases item (item_count w) w)
      as [Href|(it & -> & Hfree & Hidx)].
    { unfold Append. rewrite Insert_refused by done. by exists calls. }
    unfold Append. rewrite Insert_accepted by done. cbn [peer].
    exists (calls ++ [PlatformInsert it (item_count w)
      {| seen_items := vector_insert (items_ w)
                         (Z.to_nat (item_count w)) it;
         seen_menu := Some this |}]).
    rewrite Hp. split; [done|]. apply Forall_app. split; [done|].
    apply Forall_singleton. cbn. split_and!; [done | lia |].
    apply lookup_vector_insert. unfold item_count. lia.
  - destruct (IH (reachable_menu_inv_aux this w Hr)) as (calls & Hp & Hc).
    destruct (Insert_cases item index w) as [Href|(it & -> & Hfree & Hidx)].
    { rewrite Insert_refused by done. by exists calls. }
    rewrite Insert_accepted by done. cbn [peer].
    exists (calls ++ [PlatformInsert it index
      {| seen_items := vector_insert (items_ w) (Z.to_nat index) it;
         seen_menu := Some this |}]).
    rewrite Hp. split; [done|]. apply Forall_app. split; [done|].
    apply Forall_singleton. cbn. split_and!; [done | lia |].
    apply lookup_vector_insert. unfold item_count in Hidx. lia.
  - destruct (reachable_menu_inv_aux this w Hr) as [Hnd Hown].
    destruct (IH (conj Hnd Hown)) as (calls & Hp & Hc).
    destruct item as [it|]; [|by exists calls].
    destruct (decide (it ∈ items_ w)) as [Hin|Hout].
    2:{ rewrite Remove_absent by done. by exists calls. }
    destruct (find_split _ _ Hin) as (l1 & l2 & Hl & Hl1 & _).
    rewrite (Remove_present it w l1 l2 Hl Hl1). cbn [peer].
    exists (calls ++ [PlatformRemove it (observe it w)]).
    rewrite Hp. split; [done|]. apply Forall_app. split; [done|].
    apply Forall_singleton. cbn. split; [by apply Hown | done].
Qed.

Lemma peer_calls_consistent_witness :
  ∃ calls, peer a_menu = PlatformInit :: calls
           ∧ Forall (call_consistent 1%positive) calls.
Proof. exact (peer_calls_consistent 1%positive a_menu a_menu_reachable). Defined.

End MenuFacts.

(** * Properties of the tab container *)

Module TabFacts.
Import TabWin.

Section Facts.

Variable MeasureText : string → Font → SizeF.
Variable new_view : ViewImpl.
Variable ContainerImpl_OnDPIChanged : ViewImpl → ViewImpl → ViewImpl.

Local Abbreviation GetItemsHeight := (GetItemsHeight MeasureText).
Local Abbreviation measured_items_height := (measured_items_height MeasureText).
Local Abbreviation place_items := (place_items MeasureText).
Local Abbreviation Layout := (Layout MeasureText).
Local Abbreviation SetSelectedItem := (SetSelectedItem MeasureText).
Local Abbreviation AddPage := (AddPage MeasureText new_view).
Local Abbreviation RemovePageAt := (RemovePageAt MeasureText).
Local Abbreviation SelectItemAt := (SelectItemAt MeasureText).
Local Abbreviation GetMinimumSize := (GetMinimumSize MeasureText).
Local Abbreviation SetFont := (SetFont MeasureText).
Local Abbreviation OnDPIChanged := (OnDPIChanged MeasureText ContainerImpl_OnDPIChanged).
Local Abbreviation strip_height := (strip_height MeasureText).
Local Abbreviation select := (select MeasureText).
Local Abbreviation reachable :=
  (reachable MeasureText new_view ContainerImpl_OnDPIChanged).
Local Abbreviation cache_coherent := (cache_coherent MeasureText).
Local Abbreviation OnMouseClick := (OnMouseClick MeasureText).
Local Abbreviation PlatformAddPage := (PlatformAddPage MeasureText new_view).
Local Abbreviation PlatformRemovePage := (PlatformRemovePage MeasureText).

(** ** The strip height and its cache *)

Lemma GetItemsHeight_eq t :
  GetItemsHeight t = (strip_height t, with_items_height (strip_height t) t).
Proof.
  unfold TabWin.GetItemsHeight, TabWin.strip_height.
  destruct (items_height_ t =? -1) eqn:E; [done|]. by destruct t.
Qed.

Lemma strip_height_cached t :
  strip_height (with_items_height (strip_height t) t) = strip_height t.
Proof.
  unfold TabWin.strip_height, with_items_height. cbn [items_height_ base].
  destruct (items_height_ t =? -1) eqn:E.
  - by case_match.
  - by rewrite E.
Qed.

Lemma with_items_height_twice h h' t :
  with_items_height h (with_items_height h' t) = with_items_height h t.
Proof. done. Qed.

(** ** Layout in closed form *)

Lemma place_items_eq t x0 l :
  place_items t x0 l =
    (placed (base t) (strip_height t) x0 l,
     match l with
     | [] => t
     | _ => with_items_height (strip_height t) t
     end).
Proof.
  revert t x0. induction l as [|item l IH]; intros t x0; [done|].
  cbn [TabWin.place_items]. rewrite GetItemsHeight_eq.
  rewrite IH. cbn [base with_items_height]. rewrite strip_height_cached.
  cbn [placed]. unfold item_rect. destruct l; done.
Qed.

Lemma Layout_eq w :
  Layout w =
    let t := tab w in
    let h := strip_height t in
    let content := GetSelectedPage w in
    {| tab :=
         {| base := base t;
            items_height_ :=
              match items_ t, content with
              | [], None => items_height_ t
              | _, _ => h
              end;
            selected_item_ := selected_item_ t;
            selected_item_index_ := selected_item_index_ t;
            items_ := placed (base t) h 0 (items_ t) |};
       pages_ := pages_ w;
       views :=
         match content with
         | Some page =>
             alter (View_SizeAllocate (content_rect (base t) h)) page (views w)
         | None => views w
         end;
       log := log w ++ [Layout_run; Invalidate_tab];
       next_item := next_item w |}.
Proof.
  destruct w as [[b c sel idx items] pages vs lg nx]. unfold TabWin.Layout.
  cbn [emit tab pages_ views log next_item].
  rewrite place_items_eq. cbn zeta.
  unfold GetSelectedPage, PageAt, with_tab, with_views, emit.
  cbn [tab pages_ views log next_item items_ base].
  assert (∀ l, strip_height
            {| base := b; items_height_ := strip_height
                 {| base := b; items_height_ := c; selected_item_ := sel;
                    selected_item_index_ := idx; items_ := items |};
               selected_item_ := sel; selected_item_index_ := idx;
               items_ := l |}
          = strip_height
              {| base := b; items_height_ := c; selected_item_ := sel;
                 selected_item_index_ := idx; items_ := items |}) as Hc.
  { intros l. unfold TabWin.strip_height. cbn [items_height_ base].
    destruct (c =? -1) eqn:E; [by case_match | by rewrite E]. }
  destruct items as [|it items];
    unfold with_items, with_items_height;
    cbn [base items_height_ selected_item_ selected_item_index_ items_];
    destruct (if idx <? 0 then None else pages !! Z.to_nat idx) as [page|];
    rewrite ?GetItemsHeight_eq;
    unfold with_items, with_items_height;
    cbn [base items_height_ selected_item_ selected_item_index_ items_ tab
         pages_ views log next_item];
    rewrite <- ?app_assoc; rewrite ?Hc; done.
Qed.

(** Placing the items changes their allocations and nothing else. *)
Lemma placed_fmap {A} (f : TabItem → A) b h x0 l :
  (∀ r it, f (with_view (set_size_allocation r) it) = f it) →
  f <$> placed b h x0 l = f <$> l.
Proof.
  intros Hf. revert x0. induction l as [|it l IH]; intros x0; [done|].
  cbn [placed fmap list_fmap]. f_equal; [apply Hf | apply IH].
Qed.

Lemma at_item_fmap {A} (f : TabItem → A) p g l :
  (∀ it, f (g it) = f it) → f <$> at_item p g l = f <$> l.
Proof.
  intros Hf. unfold at_item. rewrite <- list_fmap_compose.
  apply list_fmap_ext. intros i it _. simpl. by case_decide.
Qed.

Lemma find_if_get l1 l2 p :
  get <$> l1 = get <$> l2 → find_if l1 p = find_if l2 p.
Proof.
  revert l2. induction l1 as [|a l1 IH]; intros [|b l2] [=]; [done|].
  simpl. rewrite H0. case_decide; [done|]. f_equal. by apply IH.
Qed.

Lemma Layout_fields w :
  let w' := Layout w in
  base (tab w') = base (tab w)
  ∧ selected_item_ (tab w') = selected_item_ (tab w)
  ∧ selected_item_index_ (tab w') = selected_item_index_ (tab w)
  ∧ pages_ w' = pages_ w
  ∧ next_item w' = next_item w
  ∧ log w' = log w ++ [Layout_run; Invalidate_tab].
Proof. cbn zeta. rewrite Layout_eq. done. Qed.

Lemma Layout_items {A} (f : TabItem → A) w :
  (∀ r it, f (with_view (set_size_allocation r) it) = f it) →
  f <$> items_ (tab (Layout w)) = f <$> items_ (tab w).
Proof. intros Hf. rewrite Layout_eq. cbn. by apply placed_fmap. Qed.

Lemma live_alter (f : View → View) page (m : gmap ViewPtr View) p :
  bool_decide (is_Some (alter f page m !! p)) = bool_decide (is_Some (m !! p)).
Proof.
  apply bool_decide_ext. destruct (decide (page = p)) as [->|Hne].
  - rewrite lookup_alter_eq. by rewrite fmap_is_Some.
  - by rewrite lookup_alter_ne.
Qed.

Lemma live_Layout w p :
  bool_decide (is_Some (views (Layout w) !! p))
  = bool_decide (is_Some (views w !! p)).
Proof.
  rewrite Layout_eq. cbn zeta. cbn [views].
  destruct (GetSelectedPage w); [apply live_alter | done].
Qed.

Lemma shown_alter f page w p :
  (∀ v, visible (f v) = visible v) →
  shown (with_views (alter f page) w) p = shown w p.
Proof.
  intros Hf. unfold shown. cbn [with_views views].
  destruct (decide (page = p)) as [->|Hne].
  - rewrite lookup_alter_eq. destruct (views w !! p); [apply Hf | done].
  - by rewrite lookup_alter_ne.
Qed.

Lemma shown_SetVisible b page w p :
  shown (with_views (alter (View_SetVisible b) page) w) p =
    if decide (p = page) then b && bool_decide (is_Some (views w !! p))
    else shown w p.
Proof.
  unfold shown. cbn [with_views views]. case_decide as Hp.
  - subst. rewrite lookup_alter_eq. by destruct (views w !! page), b.
  - by rewrite lookup_alter_ne.
Qed.

Lemma shown_Layout w p : shown (Layout w) p = shown w p.
Proof.
  rewrite Layout_eq. cbn zeta. unfold shown at 1. cbn [views].
  destruct (GetSelectedPage w) as [page|]; [|done].
  destruct (decide (page = p)) as [->|Hne].
  - rewrite lookup_alter_eq. unfold shown. by destruct (views w !! p).
  - by rewrite lookup_alter_ne.
Qed.

Lemma shown_ext w1 w2 :
  pages_ w1 = pages_ w2 → (∀ p, shown w1 p = shown w2 p) →
  visible_pages w1 = visible_pages w2.
Proof.
  unfold visible_pages. intros -> Hs.
  induction (pages_ w2) as [|p l IH]; [done|].
  simpl. rewrite Hs, IH. done.
Qed.

(** ** Selecting an item *)

Lemma PageAt_pages w1 w2 i : pages_ w1 = pages_ w2 → PageAt i w1 = PageAt i w2.
Proof. unfold PageAt. by intros ->. Qed.


Lemma SetSelectedItem_halves item w :
  SetSelectedItem item w = deselect w ≫= select item.
Proof.
  unfold TabWin.SetSelectedItem, deselect, TabWin.select.
  destruct (selected_item_ (tab w)); [|done].
  by destruct w as [[b c sel idx items] pages vs lg nx].
Qed.

Lemma deselect_Some w wd :
  deselect w = Some wd →
  selected_item_ (tab wd) = selected_item_ (tab w)
  ∧ selected_item_index_ (tab wd) = selected_item_index_ (tab w)
  ∧ get <$> items_ (tab wd) = get <$> items_ (tab w)
  ∧ pages_ wd = pages_ w
  ∧ log wd = log w
  ∧ ∀ p, shown wd p =
           if decide (page_to_hide w = Some p) then false else shown w p.
Proof.
  unfold deselect, page_to_hide.
  destruct (selected_item_ (tab w)) as [sel|] eqn:Hsel.
  - destruct (PageAt _ w) as [page|] eqn:Hpage; [|done]. intros [= <-].
    cbn [with_views with_tab with_items tab pages_ log selected_item_
         selected_item_index_ items_].
    split_and!; try done.
    + by apply at_item_fmap.
    + intros p. rewrite shown_SetVisible.
      destruct (decide (p = page)) as [->|Hne].
      * by rewrite decide_True.
      * rewrite decide_False by congruence. done.
  - intros [= <-]. split_and!; done.
Qed.

Lemma deselect_views w wd p :
  deselect w = Some wd →
  bool_decide (is_Some (views wd !! p)) = bool_decide (is_Some (views w !! p)).
Proof.
  unfold deselect. destruct (selected_item_ (tab w)); [|by intros [= <-]].
  destruct (PageAt _ w) as [page|]; [|done]. intros [= <-].
  apply live_alter.
Qed.

Lemma select_views item w w1 p :
  select item w = Some w1 →
  bool_decide (is_Some (views w1 !! p)) = bool_decide (is_Some (views w !! p)).
Proof.
  unfold TabWin.select. cbn zeta.
  destruct (PageAt _ w) as [page|]; [|done]. intros [= <-].
  cbn [emit views]. rewrite live_Layout. apply live_alter.
Qed.

Lemma SetSelectedItem_views item w w1 p :
  SetSelectedItem item w = Some w1 →
  bool_decide (is_Some (views w1 !! p)) = bool_decide (is_Some (views w !! p)).
Proof.
  rewrite SetSelectedItem_halves.
  destruct (deselect w) as [wd|] eqn:Hd; [|done]. cbn [mbind option_bind].
  intros Hs. rewrite (select_views _ _ _ _ Hs). by apply deselect_views.
Qed.

Lemma select_Some item w w1 :
  select item w = Some w1 →
  let index := Z.of_nat (find_if (items_ (tab w)) item) in
  selected_item_ (tab w1) = Some item
  ∧ selected_item_index_ (tab w1) = index
  ∧ get <$> items_ (tab w1) = get <$> items_ (tab w)
  ∧ pages_ w1 = pages_ w
  ∧ log w1 = log w
      ++ [Layout_run; Invalidate_tab; on_selected_page_change_Emit]
  ∧ ∃ page, PageAt index w = Some page
      ∧ ∀ p, shown w1 p =
               if decide (p = page) then bool_decide (is_Some (views w !! p))
               else shown w p.
Proof.
  unfold TabWin.select. cbn zeta.
  destruct (PageAt _ w) as [page|] eqn:Hpage; [|done]. intros [= <-].
  match goal with |- context [Layout ?w0] =>
    pose proof (Layout_fields w0) as (_ & Hs & Hi & Hp & _ & Hl);
    pose proof (Layout_items get w0 (λ _ _, eq_refl)) as Hg;
    pose proof (shown_Layout w0) as Hsh
  end.
  cbn [emit tab pages_ log]. rewrite Hs, Hi, Hp, Hl, Hg. split_and!; try done.
  - cbn. by apply at_item_fmap.
  - by rewrite <- app_assoc.
  - exists page. split; [done|]. intros p. unfold shown at 1. cbn [emit views].
    fold (shown (Layout
      (with_views (alter (View_SetVisible true) page)
         (with_tab (with_items (at_item item (SetSelected true)))
            (with_tab (with_selection (Some item)
               (Z.of_nat (find_if (items_ (tab w)) item))) w)))) p).
    rewrite Hsh, shown_SetVisible. case_decide; [done|].
    by destruct w.
Qed.

Lemma SetSelectedItem_Some item w w1 :
  SetSelectedItem item w = Some w1 →
  let index := Z.of_nat (find_if (items_ (tab w)) item) in
  selected_item_ (tab w1) = Some item
  ∧ selected_item_index_ (tab w1) = index
  ∧ get <$> items_ (tab w1) = get <$> items_ (tab w)
  ∧ pages_ w1 = pages_ w
  ∧ log w1 = log w
      ++ [Layout_run; Invalidate_tab; on_selected_page_change_Emit]
  ∧ ∃ page, PageAt index w = Some page
      ∧ shown w1 page = bool_decide (is_Some (views w !! page))
      ∧ ∀ p, p ≠ page →
             shown w1 p =
               if decide (page_to_hide w = Some p) then false else shown w p.
Proof.
  rewrite SetSelectedItem_halves. cbn zeta.
  destruct (deselect w) as [wd|] eqn:Hd; [|done]. cbn [mbind option_bind].
  intros Hs. pose proof (λ p, deselect_views w wd p Hd) as Hv.
  apply deselect_Some in Hd as (Hd1 & Hd2 & Hd3 & Hd4 & Hd5 & Hd6).
  apply select_Some in Hs as (Hs1 & Hs2 & Hs3 & Hs4 & Hs5 & page & Hs6 & Hs7).
  rewrite (find_if_get _ _ item Hd3) in Hs2, Hs6.
  rewrite (PageAt_pages _ _ _ Hd4) in Hs6.
  split_and!; try congruence.
  exists page. split; [done|]. split.
  - rewrite Hs7, decide_True by done. apply Hv.
  - intros p Hne. rewrite Hs7, decide_False by done. apply Hd6.
Qed.

Lemma SetSelectedItem_defined item w :
  selected_item_ (tab w) = None
    ∨ is_Some (PageAt (selected_item_index_ (tab w)) w) →
  is_Some (PageAt (Z.of_nat (find_if (items_ (tab w)) item)) w) →
  is_Some (SetSelectedItem item w).
Proof.
  intros Hold [page Hpage]. rewrite SetSelectedItem_halves.
  assert (is_Some (deselect w)) as [wd Hd].
  { unfold deselect. destruct Hold as [->|[page0 ->]]; [by eexists|].
    destruct (selected_item_ (tab w)); by eexists. }
  rewrite Hd. cbn [mbind option_bind].
  apply deselect_Some in Hd as (_ & _ & Hg & Hp & _).
  unfold TabWin.select. cbn zeta.
  rewrite (find_if_get _ _ item Hg), (PageAt_pages _ _ _ Hp), Hpage.
  by eexists.
Qed.

(** C5. When [SetSelectedItem(item)] has run, a second call with the same
    item runs too, lays the container out again and emits the "selected
    page changed" notification again: each call appends one run of
    [Layout] and one emission to the log, two emissions for the two calls.
    The second call leaves the selected item, the selected index, the page
    sequence and the visibility of every page as the first call left
    them. *)
Theorem SetSelectedItem_twice item w w1 :
  SetSelectedItem item w = Some w1 →
  ∃ w2,
    SetSelectedItem item w1 = Some w2
    ∧ log w1 = log w
        ++ [Layout_run; Invalidate_tab; on_selected_page_change_Emit]
    ∧ log w2 = log w
        ++ [Layout_run; Invalidate_tab; on_selected_page_change_Emit]
        ++ [Layout_run; Invalidate_tab; on_selected_page_change_Emit]
    ∧ selected_item_ (tab w2) = selected_item_ (tab w1)
    ∧ GetSelectedPageIndex w2 = GetSelectedPageIndex w1
    ∧ pages_ w2 = pages_ w1
    ∧ (∀ p, shown w2 p = shown w1 p)
    ∧ visible_pages w2 = visible_pages w1.
Proof.
  intros H1.
  pose proof (SetSelectedItem_Some _ _ _ H1)
    as (Hs & Hi & Hg & Hp & Hl & page & Hpage & Hsh & Hsh').
  assert (PageAt (selected_item_index_ (tab w1)) w1 = Some page) as Hpage1.
  { rewrite Hi, (PageAt_pages _ _ _ Hp). done. }
  assert (find_if (items_ (tab w1)) item = find_if (items_ (tab w)) item)
    as Hfind by by apply find_if_get.
  destruct (SetSelectedItem_defined item w1) as [w2 H2].
  { right. rewrite Hpage1. by eexists. }
  { rewrite Hfind, <- Hi, Hpage1. by eexists. }
  exists w2. split; [done|].
  pose proof (SetSelectedItem_Some _ _ _ H2)
    as (Hs2 & Hi2 & Hg2 & Hp2 & Hl2 & page2 & Hpage2 & Hsh2 & Hsh2').
  rewrite Hfind, <- Hi, Hpage1 in Hpage2. injection Hpage2 as <-.
  assert (∀ p, shown w2 p = shown w1 p) as Hsame.
  { intros p. destruct (decide (p = page)) as [->|Hne].
    - rewrite Hsh2, Hsh. by apply SetSelectedItem_views with item.
    - rewrite Hsh2' by done. rewrite decide_False; [done|].
      unfold page_to_hide. rewrite Hs, Hpage1. congruence. }
  unfold GetSelectedPageIndex.
  split_and!.
  - done.
  - rewrite Hl2, Hl. by rewrite <- app_assoc.
  - congruence.
  - rewrite Hi2, Hi. by rewrite Hfind.
  - done.
  - done.
  - by apply shown_ext.
Qed.

(** The index that [SetSelectedItem] stores for an item of the container
    is an index into the item sequence and into the page sequence. *)
Lemma find_if_lt l item :
  item ∈ get <$> l → (find_if l item < length l)%nat.
Proof.
  induction l as [|it l IH]; cbn [fmap list_fmap find_if length].
  - by intros ?%elem_of_nil.
  - intros Hin. case_decide as Hit; [lia|].
    apply elem_of_cons in Hin as [?|Hin]; [congruence|].
    specialize (IH Hin). lia.
Qed.

Lemma SetSelectedItem_index_valid item w w1 :
  item ∈ get <$> items_ (tab w) →
  SetSelectedItem item w = Some w1 →
  index_valid w1 = true.
Proof.
  intros Hin H1.
  apply SetSelectedItem_Some in H1
    as (_ & Hi & Hg & Hp & _ & page & Hpage & _).
  apply find_if_lt in Hin.
  assert (length (items_ (tab w1)) = length (items_ (tab w))) as Hlen.
  { apply (f_equal length) in Hg. by rewrite !length_fmap in Hg. }
  unfold PageAt in Hpage. case_match; [done|].
  apply lookup_lt_Some in Hpage.
  unfold index_valid. cbn zeta. rewrite Hi, Hlen, Hp.
  apply orb_true_iff. right. rewrite !andb_true_iff.
  rewrite Z.leb_le, !Z.ltb_lt. lia.
Qed.

(** ** Adding a page *)

(** [SetSelectedItem] changes, in the items, the selection flag, the visual
    state and the allocation, and nothing else. *)
Lemma SetSelectedItem_fmap {A} (f : TabItem → A) item w w1 :
  (∀ b it, f (SetSelected b it) = f it) →
  (∀ r it, f (with_view (set_size_allocation r) it) = f it) →
  SetSelectedItem item w = Some w1 →
  f <$> items_ (tab w1) = f <$> items_ (tab w).
Proof.
  intros Hf1 Hf2. rewrite SetSelectedItem_halves.
  destruct (deselect w) as [wd|] eqn:Hd; [|done]. cbn [mbind option_bind].
  unfold TabWin.select. cbn zeta.
  destruct (PageAt _ wd) as [page|]; [|done]. intros [= <-].
  cbn [emit tab]. rewrite Layout_items by done.
  cbn [with_views with_tab with_items with_selection tab items_].
  rewrite at_item_fmap by done.
  unfold deselect in Hd. destruct (selected_item_ (tab w)); [|congruence].
  destruct (PageAt _ w); [|done]. injection Hd as <-.
  cbn [with_views with_tab with_items tab items_]. by apply at_item_fmap.
Qed.

Lemma at_item_flags p b l :
  selected_ <$> at_item p (SetSelected b) l
  = (λ it, if decide (get it = p) then b else selected_ it) <$> l.
Proof.
  unfold at_item. rewrite <- list_fmap_compose.
  apply list_fmap_ext. intros i it _. simpl. by case_decide.
Qed.

(** The selection flags that [SetSelectedItem] leaves: set in the item at
    the address passed, cleared in the item that was selected. *)
Lemma SetSelectedItem_flags item w w1 :
  SetSelectedItem item w = Some w1 →
  selected_ <$> items_ (tab w1)
  = (λ it, if decide (get it = item) then true
           else if decide (selected_item_ (tab w) = Some (get it)) then false
           else selected_ it) <$> items_ (tab w).
Proof.
  rewrite SetSelectedItem_halves.
  destruct (deselect w) as [wd|] eqn:Hd; [|done]. cbn [mbind option_bind].
  unfold TabWin.select. cbn zeta.
  destruct (PageAt _ wd) as [page|]; [|done]. intros [= <-].
  cbn [emit tab]. rewrite Layout_items by done.
  cbn [with_views with_tab with_items with_selection tab items_].
  unfold deselect in Hd. destruct (selected_item_ (tab w)) as [sel|].
  - destruct (PageAt _ w); [|done]. injection Hd as <-.
    cbn [with_views with_tab with_items tab items_].
    unfold at_item. rewrite <- !list_fmap_compose.
    apply list_fmap_ext. intros i it _. simpl.
    destruct (decide (get it = sel)) as [Heq|Hne]; simpl.
    + rewrite (decide_True (P := Some sel = Some (get it))) by congruence.
      by case_decide.
    + rewrite (decide_False (P := Some sel = Some (get it))) by congruence.
      by case_decide.
  - injection Hd as <-. rewrite at_item_flags.
    apply list_fmap_ext. intros i it _. simpl. by case_decide.
Qed.

(** The state in which [AddPage] tests whether the new item is the first
    one. *)
Lemma AddPage_eq title w :
  AddPage title w =
    let p := next_item w in
    let item :=
      {| get := p; view := new_view; selected_ := false; title_ := title;
         size_ := size_ (SetTitle MeasureText title (TabItem_new new_view p));
         on_select := Some CallSetSelectedItem |} in
    let w0 := {| tab := with_items (λ l, l ++ [item]) (tab w);
                 pages_ := pages_ w; views := views w;
                 log := log w ++ [Invalidate_item p];
                 next_item := Pos.succ p |} in
    match items_ (tab w) with
    | [] => Layout <$> SetSelectedItem p w0
    | _ => Some (Layout w0)
    end.
Proof.
  unfold TabWin.AddPage. cbn zeta. cbn [tab with_items items_ SetTitle get
    view selected_ title_ size_ TabItem_new].
  rewrite length_app. cbn [length].
  destruct (items_ (tab w)) as [|it l] eqn:E.
  - rewrite decide_True by done. cbn [app lookup list_lookup mbind option_bind].
    by destruct (TabWin.SetSelectedItem _ _ _).
  - rewrite decide_False by (simpl; lia). done.
Qed.

(** C8. [AddPage(title)] appends to the item sequence one new item that
    carries the title and whose selection callback is the call of
    [SetSelectedItem]; it ends with a run of [Layout]. On a container
    without items (and hence without a selected item) whose enclosing
    widget has a page at index 0, the call selects the new item: it is the
    selected item, [GetSelectedPageIndex()] returns 0, its page is shown
    and the notification is emitted. On a container that has items, the
    selection and the shown pages stay as they were. *)
Theorem AddPage_appends_and_selects_first title w :
  let p := next_item w in
  (∀ w', AddPage title w = Some w' →
     get <$> items_ (tab w') = (get <$> items_ (tab w)) ++ [p]
     ∧ title_ <$> items_ (tab w') = (title_ <$> items_ (tab w)) ++ [title]
     ∧ on_select <$> items_ (tab w')
       = (on_select <$> items_ (tab w)) ++ [Some CallSetSelectedItem]
     ∧ ∃ events, log w' = log w ++ events ++ [Layout_run; Invalidate_tab])
  ∧ (items_ (tab w) = [] → selected_item_ (tab w) = None →
     ∀ page, PageAt 0 w = Some page →
     ∃ w', AddPage title w = Some w'
       ∧ GetSelectedPageIndex w' = 0
       ∧ selected_item_ (tab w') = Some p
       ∧ selected_ <$> items_ (tab w') = [true]
       ∧ shown w' page = bool_decide (is_Some (views w !! page))
       ∧ log w' = log w
           ++ [Invalidate_item p; Layout_run; Invalidate_tab;
               on_selected_page_change_Emit; Layout_run; Invalidate_tab])
  ∧ (items_ (tab w) ≠ [] →
     ∃ w', AddPage title w = Some w'
       ∧ GetSelectedPageIndex w' = GetSelectedPageIndex w
       ∧ selected_item_ (tab w') = selected_item_ (tab w)
       ∧ selected_ <$> items_ (tab w')
         = (selected_ <$> items_ (tab w)) ++ [false]
       ∧ (∀ q, shown w' q = shown w q)
       ∧ log w' = log w ++ [Invalidate_item p; Layout_run; Invalidate_tab]).
Proof.
  cbn zeta. rewrite AddPage_eq. cbn zeta. split_and!.
  - intros w' H.
    match type of H with context [Layout ?w0] => set (w0' := w0) in * end.
    assert (∀ {A} (f : TabItem → A),
              (∀ b it, f (SetSelected b it) = f it) →
              (∀ r it, f (with_view (set_size_allocation r) it) = f it) →
              f <$> items_ (tab w') = f <$> items_ (tab w0')) as Hitems.
    { intros A f Hf1 Hf2. destruct (items_ (tab w)).
      - destruct (SetSelectedItem _ w0') as [w1|] eqn:H1; [|done].
        injection H as <-. rewrite Layout_items by done.
        by eapply SetSelectedItem_fmap.
      - injection H as <-. by rewrite Layout_items. }
    rewrite !Hitems by done. subst w0'.
    cbn [tab with_items items_]. rewrite !fmap_app. split_and!; try done.
    destruct (items_ (tab w)).
    + destruct (SetSelectedItem _ _) as [w1|] eqn:H1; [|done].
      injection H as <-.
      apply SetSelectedItem_Some in H1 as (_ & _ & _ & _ & Hl & _).
      destruct (Layout_fields w1) as (_ & _ & _ & _ & _ & ->).
      rewrite Hl. cbn [log].
      exists [Invalidate_item (next_item w); Layout_run; Invalidate_tab;
              on_selected_page_change_Emit].
      by rewrite <- !app_assoc.
    + injection H as <-.
      match goal with |- context [Layout ?w0] =>
        destruct (Layout_fields w0) as (_ & _ & _ & _ & _ & ->) end.
      cbn [log]. exists [Invalidate_item (next_item w)].
      by rewrite <- !app_assoc.
  - intros Hempty Hnone page Hpage. rewrite Hempty.
    match goal with |- context [SetSelectedItem ?p ?w0] =>
      set (w0' := w0) in *;
      assert (items_ (tab w0') = [
        {| get := next_item w; view := new_view; selected_ := false;
           title_ := title;
           size_ := size_ (SetTitle MeasureText title
                             (TabItem_new new_view (next_item w)));
           on_select := Some CallSetSelectedItem |}]) as Hitems
        by (subst w0'; cbn [tab with_items items_]; by rewrite Hempty);
      assert (selected_item_ (tab w0') = None) as Hnone' by done;
      assert (pages_ w0' = pages_ w) as Hpages by done;
      assert (views w0' = views w) as Hviews by done;
      assert (log w0' = log w ++ [Invalidate_item (next_item w)])
        as Hlog by done;
      clearbody w0'
    end.
    assert (find_if (items_ (tab w0')) (next_item w) = 0%nat) as Hfind.
    { rewrite Hitems. cbn [find_if get]. by rewrite decide_True. }
    destruct (SetSelectedItem_defined (next_item w) w0') as [w1 H1];
      [by left | |].
    { rewrite Hfind. change (Z.of_nat 0) with 0.
      rewrite (PageAt_pages _ w) by done. rewrite Hpage. by eexists. }
    rewrite H1. exists (Layout w1). split; [done|].
    pose proof (SetSelectedItem_Some _ _ _ H1)
      as (Hs & Hi & _ & _ & Hl & page' & Hpage' & Hsh & _).
    pose proof (SetSelectedItem_flags _ _ _ H1) as Hfl.
    rewrite Hfind in Hi, Hpage'. change (Z.of_nat 0) with 0 in Hi, Hpage'.
    rewrite (PageAt_pages _ w) in Hpage' by done.
    rewrite Hpage in Hpage'. injection Hpage' as <-.
    destruct (Layout_fields w1) as (_ & Hs' & Hi' & _ & _ & Hl').
    unfold GetSelectedPageIndex.
    rewrite Hs', Hi', Hl', shown_Layout, Layout_items by done.
    rewrite Hfl, Hitems, Hsh, Hl, Hlog, Hviews. cbn [fmap list_fmap get].
    rewrite decide_True by done. rewrite <- !app_assoc. done.
  - intros Hne. destruct (items_ (tab w)) as [|it l] eqn:E; [done|].
    eexists. split; [done|].
    match goal with |- context [Layout ?w0] =>
      destruct (Layout_fields w0) as (_ & Hs & Hi & _ & _ & Hl);
      pose proof (Layout_items selected_ w0 (λ _ _, eq_refl)) as Hsel
    end.
    unfold GetSelectedPageIndex. rewrite Hs, Hi, Hl, Hsel.
    cbn [tab with_items items_ selected_item_ selected_item_index_ log].
    rewrite E, fmap_app, <- app_assoc. split_and!; try done.
    intros q. by rewrite shown_Layout.
Qed.

(** ** The minimum size *)

Lemma fold_left_sum (f : TabItem → Z) l a :
  fold_left (λ a b, a + f b) l a = a + sum_Z (f <$> l).
Proof.
  revert a. induction l as [|it l IH]; intros a.
  - unfold sum_Z. simpl. lia.
  - cbn [fold_left]. rewrite IH. unfold sum_Z. cbn [fmap list_fmap foldr].
    lia.
Qed.

Lemma placed_widths b h x0 l :
  allocated_width <$> placed b h x0 l = (λ it, width (size_ it)) <$> l.
Proof.
  revert x0. induction l as [|it l IH]; intros x0; [done|].
  cbn [placed fmap list_fmap]. f_equal; [|apply IH].
  unfold allocated_width, item_rect. cbn. destruct (selected_ it); cbn; lia.
Qed.

Lemma to_int_inject_Z a k : to_int (inject_Z a * inject_Z k) = a * k.
Proof. unfold to_int. cbn. apply Z.quot_1_r. Qed.

Lemma to_int_floor q :
  (0 <= q)%Q → (inject_Z (to_int q) <= q)%Q ∧ (q < inject_Z (to_int q) + 1)%Q.
Proof.
  destruct q as [n d]. unfold Qle, Qlt, to_int. cbn. intros Hq.
  assert (0 <= n) as Hn by lia.
  rewrite Z.quot_div_nonneg by lia.
  pose proof (Z.mul_div_le n (Z.pos d) ltac:(lia)).
  pose proof (Z.mul_succ_div_gt n (Z.pos d) ltac:(lia)).
  lia.
Qed.

(** C7. [GetMinimumSize()] returns the sum of the widths allocated to the
    items plus [2 * kContentPadding * scale_factor()] as its width, and the
    strip height plus the same amount as its height, the amount being
    converted to [int] as it is passed to [Size::Enlarge]: it is
    [2 * kContentPadding * k] for an integral scale factor [k], and the
    integer part of the product otherwise. The widths allocated by
    [Layout] are the measured widths of the items. No assumption on the
    items is needed: the equations also hold for an empty strip. *)
Theorem GetMinimumSize_sum_of_widths t :
  let s := (GetMinimumSize t).1 in
  let padding :=
    (inject_Z (2 * kContentPadding) * scale_factor (base t))%Q in
  width s = sum_Z (allocated_width <$> items_ t) + to_int padding
  ∧ height s = (GetItemsHeight t).1 + to_int padding
  ∧ (∀ k, scale_factor (base t) = inject_Z k →
          to_int padding = 2 * kContentPadding * k)
  ∧ ((0 <= scale_factor (base t))%Q →
     (inject_Z (to_int padding) <= padding)%Q
     ∧ (padding < inject_Z (to_int padding) + 1)%Q)
  ∧ (∀ w, t = tab (Layout w) →
          allocated_width <$> items_ t
          = (λ it, width (size_ it)) <$> items_ (tab w)).
Proof.
  cbn zeta. unfold TabWin.GetMinimumSize. rewrite GetItemsHeight_eq.
  cbn [fst snd with_items_height base Enlarge width height].
  split_and!.
  - rewrite fold_left_sum. unfold allocated_width. lia.
  - done.
  - intros k ->. apply to_int_inject_Z.
  - intros Hs. apply to_int_floor.
    apply Qmult_le_0_compat; [done | exact Hs].
  - intros w ->. rewrite Layout_eq. cbn. apply placed_widths.
Qed.

(** ** Font, color and display scale *)

Lemma SetFont_eq f w :
  SetFont f w =
    Layout {| tab := {| base := ViewImpl_SetFont f (base (tab w));
                        items_height_ := -1;
                        selected_item_ := selected_item_ (tab w);
                        selected_item_index_ := selected_item_index_ (tab w);
                        items_ := with_view (ViewImpl_SetFont f)
                                    <$> items_ (tab w) |};
              pages_ := pages_ w; views := views w; log := log w;
              next_item := next_item w |}.
Proof. done. Qed.

Lemma Forall_fmap_const {A} (f : TabItem → A) (g : TabItem → TabItem) a l :
  (∀ it, f (g it) = a) → Forall (λ it, f it = a) (g <$> l).
Proof. intros H. apply Forall_fmap, Forall_true. intros it. apply H. Qed.

Lemma Forall_fmap_eq {A} (f : TabItem → A) a l1 l2 :
  f <$> l1 = f <$> l2 → Forall (λ it, f it = a) l2 → Forall (λ it, f it = a) l1.
Proof.
  intros Heq H. apply (Forall_fmap f (λ x, x = a)).
  rewrite Heq. by apply Forall_fmap.
Qed.

Lemma OnDPIChanged_eq w :
  OnDPIChanged w =
    let b := base (tab w) in
    Layout {| tab := {| base := b;
                        items_height_ := -1;
                        selected_item_ := selected_item_ (tab w);
                        selected_item_index_ := selected_item_index_ (tab w);
                        items_ := with_view (ContainerImpl_OnDPIChanged b)
                                    <$> items_ (tab w) |};
              pages_ := pages_ w;
              views := foldr (alter (λ v,
                         {| visible := visible v;
                            native := ContainerImpl_OnDPIChanged b (native v);
                            parented := parented v |})) (views w) (pages_ w);
              log := log w; next_item := next_item w |}.
Proof. done. Qed.

(** After a run of [Layout] on an empty cache, the cache is still empty or
    holds the height measured with the current font and scale. *)
Lemma Layout_fills_cache w :
  items_height_ (tab w) = -1 →
  (items_height_ (tab (Layout w)) = -1
   ∨ items_height_ (tab (Layout w))
     = measured_items_height (base (tab (Layout w))))
  ∧ (items_ (tab w) ≠ [] →
     items_height_ (tab (Layout w))
     = measured_items_height (base (tab (Layout w)))).
Proof.
  intros Hc. rewrite Layout_eq. cbn zeta.
  cbn [tab items_height_ base]. unfold TabWin.strip_height. rewrite Hc.
  cbn. destruct (items_ (tab w)), (GetSelectedPage w); split; auto; done.
Qed.

(** C6, as the code has it. Setting the font stores it in the container and
    in every tab item, invalidates the cached strip height (which the
    layout that follows measures again when there are items), and runs
    [Layout], which ends with a repaint request. A change of the display
    scale invalidates the cached strip height and runs [Layout] in the
    same way. Setting the foreground color stores it in the container and
    in every tab item and requests a repaint; it leaves the cached strip
    height, the allocations of the items and the pages as they were and
    does not run [Layout]. *)
Theorem font_and_scale_invalidate_color_repaints f c w :
  (font (base (tab (SetFont f w))) = f
   ∧ Forall (λ it, font (view it) = f) (items_ (tab (SetFont f w)))
   ∧ invalidates_items_height (SetFont f)
   ∧ (items_height_ (tab (SetFont f w)) = -1
      ∨ items_height_ (tab (SetFont f w))
        = measured_items_height (base (tab (SetFont f w))))
   ∧ (items_ (tab w) ≠ [] →
      items_height_ (tab (SetFont f w))
      = measured_items_height (base (tab (SetFont f w))))
   ∧ log (SetFont f w) = log w ++ [Layout_run; Invalidate_tab])
  ∧ (invalidates_items_height OnDPIChanged
     ∧ (items_height_ (tab (OnDPIChanged w)) = -1
        ∨ items_height_ (tab (OnDPIChanged w))
          = measured_items_height (base (tab (OnDPIChanged w))))
     ∧ (items_ (tab w) ≠ [] →
        items_height_ (tab (OnDPIChanged w))
        = measured_items_height (base (tab (OnDPIChanged w))))
     ∧ log (OnDPIChanged w) = log w ++ [Layout_run; Invalidate_tab])
  ∧ (color (base (tab (SetColor c w))) = c
     ∧ Forall (λ it, color (view it) = c) (items_ (tab (SetColor c w)))
     ∧ items_height_ (tab (SetColor c w)) = items_height_ (tab w)
     ∧ (λ it, size_allocation (view it)) <$> items_ (tab (SetColor c w))
       = (λ it, size_allocation (view it)) <$> items_ (tab w)
     ∧ views (SetColor c w) = views w
     ∧ log (SetColor c w) = log w ++ [Invalidate_tab]).
Proof.
  split_and!.
  - rewrite SetFont_eq.
    match goal with |- context [Layout ?w0] =>
      by destruct (Layout_fields w0) as (-> & _) end.
  - rewrite SetFont_eq.
    eapply (Forall_fmap_eq (λ it, font (view it))).
    { by apply Layout_items. }
    cbn [tab items_]. by apply Forall_fmap_const.
  - intros w0 h. by destruct w0 as [[] ? ? ? ?].
  - rewrite SetFont_eq. by apply Layout_fills_cache.
  - intros Hne. rewrite SetFont_eq. apply Layout_fills_cache; [done|].
    cbn [tab items_]. by destruct (items_ (tab w)).
  - rewrite SetFont_eq.
    match goal with |- context [Layout ?w0] =>
      by destruct (Layout_fields w0) as (_ & _ & _ & _ & _ & ->) end.
  - intros w0 h. by destruct w0 as [[] ? ? ? ?].
  - rewrite OnDPIChanged_eq. by apply Layout_fills_cache.
  - intros Hne. rewrite OnDPIChanged_eq. apply Layout_fills_cache; [done|].
    cbn [tab items_]. by destruct (items_ (tab w)).
  - rewrite OnDPIChanged_eq. cbn zeta.
    match goal with |- context [Layout ?w0] =>
      by destruct (Layout_fields w0) as (_ & _ & _ & _ & _ & ->) end.
  - done.
  - cbn. by apply Forall_fmap_const.
  - done.
  - cbn. rewrite <- list_fmap_compose. by apply list_fmap_ext.
  - done.
  - done.
Qed.

(** ** Removing a page *)

(** [RemovePageAt] shows no page and hides none. *)
Lemma RemovePageAt_shown index w p :
  shown (RemovePageAt index w) p = shown w p.
Proof.
  unfold TabWin.RemovePageAt. cbn zeta. case_match; [done|].
  by rewrite shown_Layout.
Qed.


(** When the selected page is removed and is not the only one, the
    selected index is the position that the next item had before the
    removal. *)
Lemma RemovePageAt_selected index w :
  let n := Z.of_nat (length (items_ (tab w))) in
  0 ≤ index < n → selected_item_index_ (tab w) = index → n ≠ 1 →
  selected_item_index_ (tab (RemovePageAt index w)) = (index + 1) `mod` n
  ∧ length (items_ (tab (RemovePageAt index w)))
    = (length (items_ (tab w)) - 1)%nat.
Proof.
  cbn zeta. intros Hidx Hsel Hn. unfold TabWin.RemovePageAt. cbn zeta.
  replace (index <? 0) with false by (symmetry; apply Z.ltb_ge; lia).
  replace (Z.of_nat (length (items_ (tab w))) <=? index) with false
    by (symmetry; apply Z.leb_gt; lia).
  cbn [orb]. rewrite Hsel, Z.eqb_refl.
  rewrite decide_False by lia.
  pose proof (Z.mod_pos_bound (index + 1)
                (Z.of_nat (length (items_ (tab w)))) ltac:(lia)) as Hmod.
  destruct (lookup_lt_is_Some_2 (items_ (tab w))
              (Z.to_nat ((index + 1) `mod` Z.of_nat (length (items_ (tab w))))))
    as [it Hit]; [lia|].
  rewrite Hit.
  match goal with |- context [Layout ?w0] =>
    destruct (Layout_fields w0) as (_ & _ & -> & _);
    pose proof (Layout_items get w0 (λ _ _, eq_refl)) as Hget
  end.
  split; [done|].
  apply (f_equal length) in Hget. rewrite !length_fmap in Hget.
  rewrite Hget. cbn [with_tab tab with_items with_selection items_].
  rewrite length_delete.
  - unfold at_item. rewrite length_fmap. done.
  - apply lookup_lt_is_Some_2. unfold at_item. rewrite length_fmap. lia.
Qed.

(** ** Further properties of the tab items *)

Lemma pointer_move_frame m it :
  selected_ (pointer_move it m) = selected_ it
  ∧ get (pointer_move it m) = get it
  ∧ title_ (pointer_move it m) = title_ it
  ∧ size_ (pointer_move it m) = size_ it
  ∧ on_select (pointer_move it m) = on_select it
  ∧ size_allocation (view (pointer_move it m)) = size_allocation (view it)
  ∧ state (view (pointer_move it m)) =
      if selected_ it then state (view it)
      else match m with Enter => Hovered | Leave => Normal end.
Proof.
  by destruct m, it as [p v [] title size cb].
Qed.

(** X8. The visual state of a tab item follows its selection: after
    [SetSelected(b)] and any pointer movement over the item
    ([OnMouseEnter], [OnMouseLeave], in any number and order), the item is
    selected exactly when [b] says so; it is [Pressed] when selected, and
    otherwise [Hovered] when the pointer entered last and [Normal] when it
    left last or never came. The pointer changes neither the title, the
    measured size, the callback nor the allocation, and a selected item
    asks for no repaint. *)
Theorem pointer_moves_after_SetSelected b moves it :
  let it' := pointer_moves moves (SetSelected b it) in
  selected_ it' = b
  ∧ state (view it') =
      (if b then Pressed
       else match last moves with Some Enter => Hovered | _ => Normal end)
  ∧ get it' = get it ∧ title_ it' = title_ it ∧ size_ it' = size_ it
  ∧ on_select it' = on_select it
  ∧ size_allocation (view it') = size_allocation (view it)
  ∧ (selected_ it' = true →
     (OnMouseEnter it').2 = [ViewImpl_OnMouseEnter]
     ∧ (OnMouseLeave it').2 = [ViewImpl_OnMouseLeave]).
Proof.
  cbn zeta.
  assert (selected_ (pointer_moves moves (SetSelected b it)) = b
    ∧ state (view (pointer_moves moves (SetSelected b it))) =
        (if b then Pressed
         else match last moves with Some Enter => Hovered | _ => Normal end)
    ∧ get (pointer_moves moves (SetSelected b it)) = get it
    ∧ title_ (pointer_moves moves (SetSelected b it)) = title_ it
    ∧ size_ (pointer_moves moves (SetSelected b it)) = size_ it
    ∧ on_select (pointer_moves moves (SetSelected b it)) = on_select it
    ∧ size_allocation (view (pointer_moves moves (SetSelected b it)))
      = size_allocation (view it)) as H.
  { induction moves as [|m moves IH] using rev_ind.
    - by destruct b.
    - unfold pointer_moves in *. rewrite foldl_app. cbn [foldl].
      rewrite last_snoc.
      destruct IH as (I1 & I2 & I3 & I4 & I5 & I6 & I7).
      destruct (pointer_move_frame m (foldl pointer_move (SetSelected b it)
                                        moves))
        as (-> & -> & -> & -> & -> & -> & ->).
      rewrite I1, I2. split_and!; try done. by destruct b, m. }
  destruct H as (H1 & H2 & H3 & H4 & H5 & H6 & H7).
  split_and!; try done.
  intros Hsel. unfold OnMouseEnter, OnMouseLeave. by rewrite Hsel.
Qed.

Lemma to_int_nonneg q : (0 <= q)%Q → 0 ≤ to_int q.
Proof.
  destruct q as [n d]. unfold Qle, to_int. cbn. intros Hq.
  apply Z.quot_pos; lia.
Qed.

Lemma Qle_ceiling_plus q a : 0 ≤ a → (q <= inject_Z (Qceiling q + a))%Q.
Proof.
  intros Ha. eapply Qle_trans; [apply Qle_ceiling|].
  rewrite <- Zle_Qle. lia.
Qed.

(** X9. [SetTitle] stores the title and measures it with the font and the
    scale of the item: the size is the measured extent rounded up, plus
    [2 * kHPadding * k] in width and [2 * kVPadding * k] in height for an
    integral scale factor [k]; for any scale factor that is not negative,
    the size is never smaller than the measured extent. The title set
    before does not matter, and the selection, the address, the callback
    and the native part of the item stay as they were. *)
Theorem SetTitle_measures title before it :
  let it' := SetTitle MeasureText title it in
  let m := MeasureText title (font (view it)) in
  title_ it' = title
  ∧ SetTitle MeasureText title (SetTitle MeasureText before it) = it'
  ∧ (∀ k, scale_factor (view it) = inject_Z k →
          width (size_ it') = Qceiling (widthF m) + 2 * kHPadding * k
          ∧ height (size_ it') = Qceiling (heightF m) + 2 * kVPadding * k)
  ∧ ((0 <= scale_factor (view it))%Q →
     (widthF m <= inject_Z (width (size_ it')))%Q
     ∧ (heightF m <= inject_Z (height (size_ it')))%Q)
  ∧ selected_ it' = selected_ it ∧ get it' = get it ∧ view it' = view it
  ∧ on_select it' = on_select it.
Proof.
  cbn zeta. unfold SetTitle. cbn.
  split_and!; try done.
  - intros k ->. by rewrite !to_int_inject_Z.
  - intros Hs. split; apply Qle_ceiling_plus, to_int_nonneg;
      (apply Qmult_le_0_compat; [done | exact Hs]).
Qed.

(** ** Further properties of the layout *)

Lemma item_rect_width b h x0 it :
  width (extent (item_rect b h x0 it)) = width (size_ it).
Proof. unfold item_rect. cbn. destruct (selected_ it); cbn; lia. Qed.

Lemma placed_lookup b h x0 l i it :
  l !! i = Some it →
  placed b h x0 l !! i =
    Some (with_view
            (set_size_allocation
               (item_rect b h
                  (x0 + sum_Z ((λ it, width (size_ it)) <$> take i l)) it))
            it).
Proof.
  revert x0 i. induction l as [|a l IH]; intros x0 i Hi; [done|].
  destruct i as [|i]; cbn [placed].
  - injection Hi as ->. cbn. unfold sum_Z. cbn. by rewrite Z.add_0_r.
  - cbn in Hi. cbn [lookup list_lookup]. rewrite (IH _ _ Hi).
    rewrite item_rect_width. cbn [take fmap list_fmap]. unfold sum_Z.
    cbn [foldr]. do 4 f_equal. lia.
Qed.

(** X10. Where [Layout] puts the tab items: the item at position [i]
    starts at the left edge of the container plus the measured widths of
    the items before it, so that the items follow each other from left to
    right without gap or overlap; it is as wide as it was measured; a
    selected item takes the whole strip height from the top of the
    container, and any other item starts [kTPadding] scaled pixels lower,
    all items ending on the same bottom line. *)
Theorem Layout_places_items w i it :
  items_ (tab w) !! i = Some it →
  ∃ it', items_ (tab (Layout w)) !! i = Some it'
    ∧ let r := size_allocation (view it') in
      let o := origin (size_allocation (base (tab w))) in
      let top :=
        if selected_ it then 0
        else to_int (inject_Z kTPadding * scale_factor (base (tab w))) in
      x (origin r)
      = x o + sum_Z ((λ it, width (size_ it)) <$> take i (items_ (tab w)))
      ∧ width (extent r) = width (size_ it)
      ∧ y (origin r) = y o + top
      ∧ height (extent r) = strip_height (tab w) - top
      ∧ y (origin r) + height (extent r) = y o + strip_height (tab w).
Proof.
  intros Hi. rewrite Layout_eq. cbn zeta. cbn [tab items_].
  eexists. split; [by apply placed_lookup|].
  cbn zeta. cbn [view with_view set_size_allocation size_allocation].
  rewrite item_rect_width. unfold item_rect.
  destruct (selected_ it); cbn; split_and!; lia.
Qed.

Lemma placed_again b h x0 x1 l :
  placed b h x0 (placed b h x1 l) = placed b h x0 l.
Proof.
  revert x0 x1. induction l as [|it l IH]; intros x0 x1; [done|].
  cbn [placed]. rewrite IH.
  assert (∀ r, item_rect b h x0 (with_view (set_size_allocation r) it)
               = item_rect b h x0 it) as Hr by done.
  rewrite !Hr. done.
Qed.

Lemma Layout_GetSelectedPage w : GetSelectedPage (Layout w) = GetSelectedPage w.
Proof. by rewrite Layout_eq. Qed.

Lemma Layout_strip_height w :
  strip_height (tab (Layout w)) = strip_height (tab w).
Proof.
  rewrite Layout_eq. cbn zeta. cbn [tab].
  pose proof (strip_height_cached (tab w)) as Hc.
  unfold TabWin.strip_height, with_items_height in *.
  cbn [items_height_ base] in *.
  by destruct (items_ (tab w)), (GetSelectedPage w).
Qed.

(** X11. A second run of [Layout] changes nothing but the log: the
    container, the page sequence and the views are as the first run left
    them. And a run of [Layout] leaves the selection, the order, titles,
    measured sizes and selection flags of the items, and the visibility of
    every page as they were. *)
Theorem Layout_twice w :
  tab (Layout (Layout w)) = tab (Layout w)
  ∧ views (Layout (Layout w)) = views (Layout w)
  ∧ pages_ (Layout (Layout w)) = pages_ (Layout w)
  ∧ log (Layout (Layout w)) = log w
      ++ [Layout_run; Invalidate_tab] ++ [Layout_run; Invalidate_tab]
  ∧ selected_item_ (tab (Layout w)) = selected_item_ (tab w)
  ∧ selected_item_index_ (tab (Layout w)) = selected_item_index_ (tab w)
  ∧ (λ it, (get it, title_ it, size_ it, selected_ it, on_select it))
      <$> items_ (tab (Layout w))
    = (λ it, (get it, title_ it, size_ it, selected_ it, on_select it))
      <$> items_ (tab w)
  ∧ (∀ p, shown (Layout w) p = shown w p).
Proof.
  split_and!.
  - rewrite (Layout_eq (Layout w)). cbn zeta.
    rewrite Layout_strip_height, Layout_GetSelectedPage.
    rewrite (Layout_eq w). cbn zeta.
    cbn [tab base selected_item_ selected_item_index_ items_ items_height_].
    rewrite placed_again.
    by destruct (items_ (tab w)), (GetSelectedPage w).
  - rewrite (Layout_eq (Layout w)). cbn zeta.
    rewrite Layout_strip_height, Layout_GetSelectedPage.
    rewrite (Layout_eq w). cbn zeta. cbn [tab base views].
    destruct (GetSelectedPage w) as [page|]; [|done].
    apply map_eq. intros p. destruct (decide (page = p)) as [->|Hne].
    + rewrite !lookup_alter_eq. by destruct (views w !! p).
    + by rewrite !lookup_alter_ne.
  - by rewrite !Layout_eq.
  - destruct (Layout_fields (Layout w)) as (_ & _ & _ & _ & _ & ->).
    destruct (Layout_fields w) as (_ & _ & _ & _ & _ & ->).
    by rewrite <- app_assoc.
  - apply Layout_fields.
  - apply Layout_fields.
  - by apply Layout_items.
  - apply shown_Layout.
Qed.

(** ** Removing a page, continued *)

(** What [RemovePageAt] does for an index in range: the selection is
    updated in the container, the item is erased, and [Layout] runs. *)
Lemma RemovePageAt_in_range index w :
  0 ≤ index < Z.of_nat (length (items_ (tab w))) →
  ∃ t, RemovePageAt index w
       = Layout (with_tab (λ _, with_items (delete (Z.to_nat index)) t) w)
     ∧ base t = base (tab w) ∧ items_height_ t = items_height_ (tab w)
     ∧ get <$> items_ t = get <$> items_ (tab w)
     ∧ title_ <$> items_ t = title_ <$> items_ (tab w)
     ∧ on_select <$> items_ t = on_select <$> items_ (tab w)
     ∧ (index ≠ selected_item_index_ (tab w) → t = tab w).
Proof.
  intros Hidx. unfold TabWin.RemovePageAt. cbn zeta.
  replace (index <? 0) with false by (symmetry; apply Z.ltb_ge; lia).
  replace (Z.of_nat (length (items_ (tab w))) <=? index) with false
    by (symmetry; apply Z.leb_gt; lia).
  cbn [orb]. eexists. split; [reflexivity|].
  destruct (index =? selected_item_index_ (tab w)) eqn:E.
  2:{ apply Z.eqb_neq in E. done. }
  apply Z.eqb_eq in E.
  case_decide; [split_and!; try done; by destruct (tab w)|].
  destruct (items_ (tab w) !! _) as [it|]; [|done].
  cbn [with_items with_selection base items_height_ items_].
  split_and!; try done; by apply at_item_fmap.
Qed.

Lemma RemovePageAt_out_of_range index w :
  index < 0 ∨ Z.of_nat (length (items_ (tab w))) ≤ index →
  RemovePageAt index w = w.
Proof.
  intros H. unfold TabWin.RemovePageAt. cbn zeta.
  destruct H.
  - replace (index <? 0) with true by (symmetry; apply Z.ltb_lt; lia). done.
  - replace (Z.of_nat (length (items_ (tab w))) <=? index) with true
      by (symmetry; apply Z.leb_le; lia).
    by rewrite orb_true_r.
Qed.

(** X15. [RemovePageAt(index)] changes nothing at all (no layout, no
    repaint request) when the index is negative or not below the count of
    the items. For an index in range, exactly the item at that index is
    gone from the sequence, the other items keep their order and their
    titles, and [Layout] runs once. In no case does the call touch the
    page sequence or show or hide a page. *)
Theorem RemovePageAt_erases_one index w :
  let n := Z.of_nat (length (items_ (tab w))) in
  (index < 0 ∨ n ≤ index → RemovePageAt index w = w)
  ∧ (0 ≤ index < n →
     get <$> items_ (tab (RemovePageAt index w))
     = delete (Z.to_nat index) (get <$> items_ (tab w))
     ∧ title_ <$> items_ (tab (RemovePageAt index w))
       = delete (Z.to_nat index) (title_ <$> items_ (tab w))
     ∧ Z.of_nat (length (items_ (tab (RemovePageAt index w)))) = n - 1
     ∧ log (RemovePageAt index w) = log w ++ [Layout_run; Invalidate_tab])
  ∧ pages_ (RemovePageAt index w) = pages_ w
  ∧ (∀ p, shown (RemovePageAt index w) p = shown w p).
Proof.
  cbn zeta. split_and!.
  - apply RemovePageAt_out_of_range.
  - intros Hidx.
    destruct (RemovePageAt_in_range index w Hidx)
      as (t & -> & _ & _ & Hg & Ht & _).
    rewrite !Layout_items by done.
    match goal with |- context [Layout ?w0] =>
      destruct (Layout_fields w0) as (_ & _ & _ & _ & _ & ->);
      pose proof (Layout_items get w0 (λ _ _, eq_refl)) as Hlen
    end.
    apply (f_equal length) in Hlen. rewrite !length_fmap in Hlen.
    rewrite Hlen. cbn [with_tab tab with_items items_ log].
    rewrite !list_fmap_delete, Hg, Ht. split_and!; try done.
    rewrite length_delete.
    + apply (f_equal length) in Hg. rewrite !length_fmap in Hg. lia.
    + apply lookup_lt_is_Some_2.
      apply (f_equal length) in Hg. rewrite !length_fmap in Hg. lia.
  - destruct (decide (0 ≤ index < Z.of_nat (length (items_ (tab w)))))
      as [Hidx|Hout].
    + destruct (RemovePageAt_in_range index w Hidx) as (t & -> & _).
      by rewrite Layout_eq.
    + rewrite RemovePageAt_out_of_range by lia. done.
  - intros p. unfold TabWin.RemovePageAt. cbn zeta. case_match; [done|].
    by rewrite shown_Layout.
Qed.

Lemma selection_agrees_get w :
  selection_agrees w ↔
  0 ≤ selected_item_index_ (tab w)
  ∧ is_Some (selected_item_ (tab w))
  ∧ (get <$> items_ (tab w)) !! Z.to_nat (selected_item_index_ (tab w))
    = selected_item_ (tab w).
Proof.
  unfold selection_agrees. rewrite list_lookup_fmap. split.
  - intros (it & H0 & Hit & Hsel). rewrite Hit, Hsel. by split_and!.
  - intros (H0 & [p Hp] & Hl). rewrite Hp in Hl.
    destruct (items_ (tab w) !! _) as [it|]; [|done].
    injection Hl as <-. by exists it.
Qed.

(** X16. When [RemovePageAt] keeps the selection sound. If the selected
    index and the selected item agree, they still agree after a page
    behind the selected one is removed, the selection being untouched; and
    after the selected page is removed when it is the last of several, the
    selection having moved to the first item, at index 0. In both cases
    the selected index is an index of the remaining items. *)
Theorem RemovePageAt_keeps_agreement index w :
  let n := Z.of_nat (length (items_ (tab w))) in
  let i := selected_item_index_ (tab w) in
  selection_agrees w → 0 ≤ index < n →
  i < index ∨ (i = index ∧ index = n - 1 ∧ 1 < n) →
  selection_agrees (RemovePageAt index w)
  ∧ selected_item_index_ (tab (RemovePageAt index w))
    = (if decide (i < index) then i else 0)
  ∧ (i < index →
     selected_item_ (tab (RemovePageAt index w)) = selected_item_ (tab w))
  ∧ selected_item_index_ (tab (RemovePageAt index w)) < n - 1.
Proof.
  cbn zeta. intros Hagree Hidx Hcase.
  pose proof Hagree as (H0 & [p Hp] & Hl)%selection_agrees_get.
  destruct (RemovePageAt_in_range index w Hidx)
    as (t & Heq & _ & _ & Hg & _ & _ & Hsame).
  assert (get <$> items_ (tab (RemovePageAt index w))
          = delete (Z.to_nat index) (get <$> items_ (tab w))) as Hget.
  { rewrite Heq, Layout_items by done.
    cbn [with_tab tab with_items items_]. by rewrite list_fmap_delete, Hg. }
  assert (selected_item_ (tab (RemovePageAt index w)) = selected_item_ t
          ∧ selected_item_index_ (tab (RemovePageAt index w))
            = selected_item_index_ t) as [Hs Hi].
  { rewrite Heq.
    match goal with |- context [Layout ?w0] =>
      by destruct (Layout_fields w0) as (_ & -> & -> & _) end. }
  destruct Hcase as [Hlt|(Hi' & Hlast & Hn)].
  - rewrite Hsame in Hs, Hi by lia. rewrite decide_True by done.
    split_and!; [|done|done|lia].
    apply selection_agrees_get. rewrite Hs, Hi, Hget.
    split_and!; [done | by eexists |].
    rewrite list_lookup_delete_lt by lia. done.
  - rewrite decide_False by lia.
    assert (selected_item_index_ t = 0
            ∧ selected_item_ t = (get <$> items_ (tab w)) !! 0%nat
            ∧ is_Some (selected_item_ t)) as (Hi0 & Hs0 & Hsome).
    { clear Hget Hs Hi Hsame Hg.
      unfold TabWin.RemovePageAt in Heq. cbn zeta in Heq.
      replace (index <? 0) with false in Heq
        by (symmetry; apply Z.ltb_ge; lia).
      replace (Z.of_nat (length (items_ (tab w))) <=? index) with false
        in Heq by (symmetry; apply Z.leb_gt; lia).
      cbn [orb] in Heq. rewrite <- Hi', Z.eqb_refl in Heq.
      rewrite decide_False in Heq by lia.
      replace ((selected_item_index_ (tab w) + 1)
                 `mod` Z.of_nat (length (items_ (tab w)))) with 0 in Heq
        by (rewrite Hi', Hlast; replace (_ - 1 + 1) with
              (Z.of_nat (length (items_ (tab w)))) by lia;
            symmetry; apply Z_mod_same_full).
      destruct (lookup_lt_is_Some_2 (items_ (tab w)) 0%nat ltac:(lia))
        as [it0 Hit0].
      change (Z.to_nat 0) with 0%nat in Heq. rewrite Hit0 in Heq.
      apply (f_equal tab) in Heq. rewrite !Layout_eq in Heq.
      cbn zeta in Heq. cbn [tab with_tab] in Heq.
      apply (f_equal (λ t, (selected_item_ t, selected_item_index_ t)))
        in Heq. cbn in Heq. injection Heq as <- <-.
      rewrite list_lookup_fmap, Hit0. by split_and!. }
    rewrite Hi, Hi0, Hs. split_and!; [|done|lia|lia].
    apply selection_agrees_get. rewrite Hs, Hi, Hi0, Hget, Hs0.
    split_and!; [done | by rewrite <- Hs0 |].
    change (Z.to_nat 0) with 0%nat. rewrite list_lookup_delete_lt by lia.
    done.
Qed.

(** ** Selecting by index *)

Lemma find_if_lookup l i it :
  NoDup (get <$> l) → l !! i = Some it → find_if l (get it) = i.
Proof.
  revert i. induction l as [|a l IH]; intros i Hnd Hi; [done|].
  cbn [fmap list_fmap] in Hnd. apply NoDup_cons in Hnd as [Ha Hnd].
  destruct i as [|i]; cbn in Hi.
  - injection Hi as ->. cbn. by rewrite decide_True.
  - cbn [find_if]. rewrite decide_False.
    + f_equal. by apply IH.
    + intros Heq. apply Ha. rewrite Heq.
      apply list_elem_of_fmap. exists it. split; [done|].
      by eapply list_elem_of_lookup_2.
Qed.


(** ** The states of a tab container *)

Lemma wired_fmap w w' :
  on_select <$> items_ (tab w') = on_select <$> items_ (tab w) →
  items_wired w → items_wired w'.
Proof.
  unfold items_wired. intros Heq H.
  apply (Forall_fmap on_select (λ o, o = Some CallSetSelectedItem)).
  rewrite Heq. by apply Forall_fmap.
Qed.

Lemma distinct_fmap w w' :
  get <$> items_ (tab w') = get <$> items_ (tab w) →
  next_item w' = next_item w →
  items_distinct w → items_distinct w'.
Proof.
  unfold items_distinct. intros Heq -> [Hnd H]. rewrite Heq. split; [done|].
  apply (Forall_fmap get (λ p, (p < next_item w)%positive)).
  rewrite Heq. by apply Forall_fmap.
Qed.

Lemma Layout_coherent w :
  cache_coherent (tab w) → cache_coherent (tab (Layout w)).
Proof.
  unfold TabWin.cache_coherent. rewrite Layout_eq. cbn zeta.
  cbn [tab items_height_ base]. unfold TabWin.strip_height.
  intros [Hc|Hc].
  - rewrite Hc. cbn.
    destruct (items_ (tab w)), (GetSelectedPage w); auto.
  - destruct (items_height_ (tab w) =? -1);
      destruct (items_ (tab w)), (GetSelectedPage w); auto.
Qed.

(** What an operation that ends with [Layout] keeps, when it has changed
    the items before only in their native part, selection flag or
    state. *)
Lemma Layout_keeps w0 w :
  get <$> items_ (tab w0) = get <$> items_ (tab w) →
  on_select <$> items_ (tab w0) = on_select <$> items_ (tab w) →
  next_item w0 = next_item w →
  items_wired w ∧ items_distinct w →
  items_wired (Layout w0) ∧ items_distinct (Layout w0).
Proof.
  intros Hg Ho Hn [Hw Hd]. split.
  - apply (wired_fmap w); [|done]. by rewrite Layout_items.
  - apply (distinct_fmap w); [| |done].
    + by rewrite Layout_items.
    + by destruct (Layout_fields w0) as (_ & _ & _ & _ & -> & _).
Qed.

Lemma SetSelectedItem_keeps item w w1 :
  SetSelectedItem item w = Some w1 →
  next_item w1 = next_item w
  ∧ base (tab w1) = base (tab w)
  ∧ (cache_coherent (tab w) → cache_coherent (tab w1)).
Proof.
  rewrite SetSelectedItem_halves.
  destruct (deselect w) as [wd|] eqn:Hd; [|done]. cbn [mbind option_bind].
  unfold TabWin.select. cbn zeta.
  destruct (PageAt _ wd) as [page|]; [|done]. intros [= <-].
  cbn [emit tab next_item].
  assert (next_item wd = next_item w ∧ base (tab wd) = base (tab w)
          ∧ items_height_ (tab wd) = items_height_ (tab w)) as (Hn & Hb & Hc).
  { unfold deselect in Hd. destruct (selected_item_ (tab w)).
    - destruct (PageAt _ w); [|done]. by injection Hd as <-.
    - by injection Hd as <-. }
  match goal with |- context [Layout ?w0] =>
    destruct (Layout_fields w0) as (-> & _ & _ & _ & -> & _);
    pose proof (Layout_coherent w0) as Hcoh
  end.
  split_and!; [done | done |].
  intros H. apply Hcoh. unfold TabWin.cache_coherent in *.
  cbn [with_views with_tab with_items with_selection tab base
       items_height_]. by rewrite Hb, Hc.
Qed.

Lemma SetSelectedItem_inv item w w1 :
  SetSelectedItem item w = Some w1 →
  items_wired w ∧ items_distinct w ∧ cache_coherent (tab w) →
  items_wired w1 ∧ items_distinct w1 ∧ cache_coherent (tab w1).
Proof.
  intros H1 (Hw & Hd & Hc).
  destruct (SetSelectedItem_keeps _ _ _ H1) as (Hn & _ & Hcoh).
  split_and!.
  - apply (wired_fmap w); [|done]. by eapply SetSelectedItem_fmap.
  - apply (distinct_fmap w); [|done|done]. by eapply SetSelectedItem_fmap.
  - by apply Hcoh.
Qed.

Lemma measured_SetColor c b :
  measured_items_height (ViewImpl_SetColor c b) = measured_items_height b.
Proof. done. Qed.

Lemma reachable_inv w :
  reachable w →
  items_wired w ∧ items_distinct w ∧ cache_coherent (tab w).
Proof.
  induction 1 as [v pages vs lg next
                 |title w w' Hr IH Hadd
                 |index w Hr IH
                 |index w w' Hr IH Hsel
                 |h d item w r Hr IH Hclick
                 |f w Hr IH|c w Hr IH|s w Hr IH|w Hr IH|f g w Hr IH].
  - split_and!; [by constructor | | by left].
    split; [apply NoDup_nil_2 | by constructor].
  - rewrite AddPage_eq in Hadd. cbn zeta in Hadd.
    destruct IH as (Hw & [Hnd Hlt] & Hc).
    match type of Hadd with context [Layout ?w0] =>
      set (w0' := w0) in *;
      assert (items_wired w0' ∧ items_distinct w0'
              ∧ cache_coherent (tab w0')) as Hinv0
    end.
    { subst w0'. unfold items_wired, items_distinct.
      cbn [tab with_items items_ next_item]. split_and!.
      - apply Forall_app. split; [done|]. by apply Forall_singleton.
      - rewrite fmap_app. cbn [fmap list_fmap get].
        apply NoDup_app. split_and!; [done | | apply NoDup_singleton].
        intros p Hp Hp'. apply list_elem_of_singleton in Hp'. subst p.
        apply list_elem_of_fmap in Hp as (it & Hit & Hin).
        rewrite Forall_forall in Hlt. specialize (Hlt it Hin). lia.
      - apply Forall_app. split.
        + eapply Forall_impl; [exact Hlt|]. cbn. intros; lia.
        + apply Forall_singleton. cbn. lia.
      - by destruct (tab w). }
    clearbody w0'.
    assert (∃ w1, w' = Layout w1 ∧ items_wired w1 ∧ items_distinct w1
                  ∧ cache_coherent (tab w1)) as (w1 & -> & Hw1 & Hd1 & Hc1).
    { destruct (items_ (tab w)).
      - destruct (SetSelectedItem _ w0') as [w1|] eqn:H1; [|done].
        injection Hadd as <-. exists w1. split; [done|].
        by eapply SetSelectedItem_inv.
      - injection Hadd as <-. by exists w0'. }
    split_and!; [by apply (Layout_keeps w1 w1)..|by apply Layout_coherent].
  - destruct IH as (Hw & Hd & Hc).
    destruct (decide (0 ≤ index < Z.of_nat (length (items_ (tab w)))))
      as [Hidx|Hout].
    2:{ rewrite RemovePageAt_out_of_range by lia. done. }
    destruct (RemovePageAt_in_range index w Hidx)
      as (t & -> & Hb & Hch & Hg & _ & Ho & _).
    destruct Hd as [Hnd Hlt]. split_and!.
    + unfold items_wired in *. rewrite Layout_eq. cbn.
      apply (Forall_fmap on_select (λ o, o = Some CallSetSelectedItem)).
      rewrite placed_fmap by done. rewrite list_fmap_delete, Ho.
      apply Forall_delete. by apply Forall_fmap.
    + unfold items_distinct in *. rewrite Layout_eq. cbn.
      rewrite placed_fmap by done. rewrite list_fmap_delete, Hg. split.
      * eapply sublist_NoDup; [exact Hnd | apply sublist_delete].
      * apply (Forall_fmap get (λ p, (p < next_item w)%positive)).
        rewrite placed_fmap by done. rewrite list_fmap_delete, Hg.
        apply Forall_delete. by apply Forall_fmap.
    + apply Layout_coherent. unfold TabWin.cache_coherent in *.
      cbn [with_tab tab with_items base items_height_]. by rewrite Hb, Hch.
  - unfold TabWin.SelectItemAt in Hsel.
    destruct (_ || _); [by injection Hsel as <-|].
    destruct (items_ (tab w) !! _) as [it|]; [|done].
    by eapply SetSelectedItem_inv.
  - unfold TabWin.OnMouseClick in Hclick.
    destruct h; [by injection Hclick as <-|].
    destruct d; [|by injection Hclick as <-].
    destruct (items_ (tab w) !! _) as [it|]; [|done].
    cbn [mbind option_bind] in Hclick.
    destruct (on_select it) as [[]|]; [|done].
    cbn [mbind option_bind] in Hclick.
    destruct (SetSelectedItem item w) as [w1|] eqn:H1; [|done].
    injection Hclick as <-. by eapply SetSelectedItem_inv.
  - destruct IH as (Hw & Hd & Hc). rewrite SetFont_eq. split_and!.
    + apply (Layout_keeps _ w); try done; cbn [tab items_];
        rewrite <- list_fmap_compose; by apply list_fmap_ext.
    + apply (Layout_keeps _ w); try done; cbn [tab items_];
        rewrite <- list_fmap_compose; by apply list_fmap_ext.
    + by apply Layout_fills_cache.
  - destruct IH as (Hw & Hd & Hc). split_and!.
    + apply (wired_fmap w); [|done]. cbn.
      rewrite <- list_fmap_compose. by apply list_fmap_ext.
    + apply (distinct_fmap w); [|done|done]. cbn.
      rewrite <- list_fmap_compose. by apply list_fmap_ext.
    + unfold TabWin.cache_coherent in *.
      destruct Hc as [Hc|Hc]; [by left | right].
      cbn. rewrite Hc. symmetry. apply measured_SetColor.
  - destruct IH as (Hw & Hd & Hc). rewrite OnDPIChanged_eq. cbn zeta.
    split_and!.
    + apply (Layout_keeps _ w); try done; cbn [tab items_ with_tab];
        rewrite <- list_fmap_compose; by apply list_fmap_ext.
    + apply (Layout_keeps _ w); try done; cbn [tab items_ with_tab];
        rewrite <- list_fmap_compose; by apply list_fmap_ext.
    + by apply Layout_fills_cache.
  - destruct IH as (Hw & Hd & Hc).
    assert ((GetMinimumSize (tab w)).2
            = with_items_height (strip_height (tab w)) (tab w)) as Hm.
    { unfold TabWin.GetMinimumSize. by rewrite GetItemsHeight_eq. }
    split_and!.
    + apply (wired_fmap w); [|done]. cbn [with_tab tab]. by rewrite Hm.
    + apply (distinct_fmap w); [| |done]; cbn [with_tab tab next_item];
        by rewrite ?Hm.
    + cbn [with_tab tab]. rewrite Hm. unfold TabWin.cache_coherent in *.
      cbn [with_items_height items_height_ base].
      unfold TabWin.strip_height. destruct Hc as [->|Hc]; [by right|].
      destruct (_ =? -1); auto.
  - done.
Qed.

(** X12. Every tab item of a container carries its selection callback: in
    every state that the operations lead to from the construction of the
    container, a click on an item of the container never calls an empty
    [std::function]. The click is reported as handled whenever it returns;
    it selects the item exactly as [SetSelectedItem(item)] does when the
    base class has not handled the event and the event is a
    [MouseDown], and changes nothing otherwise. The identity lookup finds
    each item at its own position. *)
Theorem reachable_click_selects w i it :
  reachable w → items_ (tab w) !! i = Some it →
  on_select it = Some CallSetSelectedItem
  ∧ find_if (items_ (tab w)) (get it) = i
  ∧ (∀ handled_by_base mouse_down,
       OnMouseClick handled_by_base mouse_down (get it) w =
         if handled_by_base then Some (true, w)
         else if mouse_down
              then pair true <$> SetSelectedItem (get it) w
              else Some (true, w)).
Proof.
  intros Hr Hi. destruct (reachable_inv w Hr) as (Hw & [Hnd _] & _).
  assert (on_select it = Some CallSetSelectedItem) as Hcb.
  { unfold items_wired in Hw. rewrite Forall_forall in Hw. apply Hw.
    by eapply list_elem_of_lookup_2. }
  pose proof (find_if_lookup _ _ _ Hnd Hi) as Hfind.
  split_and!; [done | done |].
  intros [] []; try done. unfold TabWin.OnMouseClick.
  rewrite Hfind, Hi. cbn [mbind option_bind]. rewrite Hcb.
  cbn [mbind option_bind]. by destruct (TabWin.SetSelectedItem _ _ _).
Qed.

(** X13. The cached strip height is never stale: in every state that the
    operations and the changes of the display scale lead to from the
    construction of the container, the cache is empty or holds the height
    measured with the current font and scale, so that [GetItemsHeight()]
    returns that height, and so does the height of [GetMinimumSize()] up
    to the content padding. *)
Theorem reachable_strip_height w :
  reachable w →
  (items_height_ (tab w) = -1
   ∨ items_height_ (tab w) = measured_items_height (base (tab w)))
  ∧ (GetItemsHeight (tab w)).1 = measured_items_height (base (tab w))
  ∧ height (GetMinimumSize (tab w)).1
    = measured_items_height (base (tab w))
      + to_int (inject_Z (2 * kContentPadding)
                * scale_factor (base (tab w))).
Proof.
  intros Hr. destruct (reachable_inv w Hr) as (_ & _ & Hc).
  assert ((GetItemsHeight (tab w)).1 = measured_items_height (base (tab w)))
    as Hh.
  { rewrite GetItemsHeight_eq. cbn [fst]. unfold TabWin.strip_height.
    destruct Hc as [->|Hc]; [done|]. by destruct (_ =? -1). }
  split_and!; [done | done |].
  unfold TabWin.GetMinimumSize. rewrite GetItemsHeight_eq in *.
  cbn [fst] in Hh. cbn. by rewrite Hh.
Qed.

(** ** Children and traversal *)

Lemma find_if_absent l p : p ∉ get <$> l → find_if l p = length l.
Proof.
  induction l as [|it l IH]; cbn [fmap list_fmap find_if length]; [done|].
  intros Hn. apply not_elem_of_cons in Hn as [Hne Hn].
  rewrite decide_False by congruence. f_equal. by apply IH.
Qed.

(** X17. [HasChild] knows the tab items and the selected page only: it
    answers [true] for every item of the container and [false] for the
    address of any other item; for the native view of a page it answers
    [true] exactly when the page is the one at the selected index, so
    that the other pages, hidden or not, do not count as children; and
    for a null pointer it answers [true] exactly when there is no page at
    the selected index. *)
Theorem HasChild_items_and_selected_page w :
  (∀ it, it ∈ items_ (tab w) →
         HasChild (Some (item_view (get it))) w = true)
  ∧ (∀ p, p ∉ get <$> items_ (tab w) →
          HasChild (Some (item_view p)) w = false)
  ∧ (∀ v, HasChild (Some (page_native v)) w
          = bool_decide (GetSelectedPage w = Some v))
  ∧ HasChild None w = bool_decide (GetSelectedPage w = None).
Proof.
  unfold HasChild. split_and!.
  - intros it Hin. rewrite decide_False by by destruct (GetSelectedPage w).
    apply bool_decide_eq_true_2.
    assert (get it ∈ get <$> items_ (tab w)) as Hg
      by (apply list_elem_of_fmap; by exists it).
    apply find_if_lt in Hg. lia.
  - intros p Hp. rewrite decide_False by by destruct (GetSelectedPage w).
    apply bool_decide_eq_false_2. rewrite find_if_absent by done. auto.
  - intros v. destruct (GetSelectedPage w) as [page|]; cbn.
    + destruct (decide (page = v)) as [->|Hne].
      * rewrite decide_True by done. by rewrite bool_decide_eq_true_2.
      * rewrite decide_False by congruence.
        by rewrite bool_decide_eq_false_2 by congruence.
    + done.
  - by destruct (GetSelectedPage w).
Qed.

Lemma rev_elem_of (l : list nat) i : i ∈ rev l → i ∈ l.
Proof.
  intros Hi. apply list_elem_of_In. apply list_elem_of_In in Hi.
  by apply (proj2 (in_rev l i)).
Qed.

Lemma visit_eq callback w indices :
  Forall (λ i, (i < length (items_ (tab w)))%nat
               ∧ (i < length (pages_ w))%nat) indices →
  visit callback w indices
  = Some (until_rejected callback (child_views w indices)).
Proof.
  induction indices as [|i indices IH]; intros Hall; [done|].
  apply Forall_cons in Hall as [[Hi Hp] Hall].
  destruct (lookup_lt_is_Some_2 _ _ Hi) as [it Hit].
  destruct (lookup_lt_is_Some_2 _ _ Hp) as [page Hpage].
  unfold child_views. cbn [visit mbind list_bind].
  fold (child_views w indices).
  rewrite Hit, Hpage. cbn [mbind option_bind app until_rejected].
  unfold PageAt.
  replace (Z.of_nat i <? 0) with false by (symmetry; apply Z.ltb_ge; lia).
  rewrite Nat2Z.id, Hpage. cbn [mbind option_bind].
  destruct (callback (item_view (get it))); [|done].
  destruct (callback (page_native page)); [|done].
  by rewrite IH.
Qed.

Lemma until_rejected_all callback l :
  (∀ v, callback v = true) → until_rejected callback l = l.
Proof.
  intros Hall. induction l as [|a l IH]; [done|].
  cbn. by rewrite Hall, IH.
Qed.

(** X18. [ForEach] calls nothing on a container without items. When the
    enclosing widget has a page for every item, the callback sees the
    views index by index, from the first index to the last or, reversed,
    from the last to the first, each item followed by its page in both
    directions; it sees them up to and including the first view it
    answers [false] on, and all of them when it never does. *)
Theorem ForEach_visits (callback : ViewImplPtr → bool) (reverse : bool) w :
  let n := length (items_ (tab w)) in
  let indices := if reverse then rev (seq 0 n) else seq 0 n in
  (items_ (tab w) = [] → ForEach callback reverse w = Some [])
  ∧ ((n ≤ length (pages_ w))%nat →
     ForEach callback reverse w
     = Some (until_rejected callback (child_views w indices))
     ∧ ((∀ v, callback v = true) →
        ForEach callback reverse w = Some (child_views w indices)
        ∧ length (child_views w indices) = (2 * n)%nat))
  ∧ child_views w (rev (seq 0 n))
    = mjoin (rev ((λ i, child_views w [i]) <$> seq 0 n)).
Proof.
  cbn zeta. split_and!.
  - unfold ForEach. by intros ->.
  - intros Hn.
    assert (ForEach callback reverse w
            = Some (until_rejected callback (child_views w
                (if reverse then rev (seq 0 (length (items_ (tab w))))
                 else seq 0 (length (items_ (tab w))))))) as Heq.
    { unfold ForEach. destruct (items_ (tab w)) as [|it l] eqn:E.
      - by destruct reverse.
      - rewrite <- E in *. apply visit_eq.
        assert (Forall (λ i, (i < length (items_ (tab w)))%nat
                             ∧ (i < length (pages_ w))%nat)
                  (seq 0 (length (items_ (tab w))))) as Hseq.
        { apply Forall_forall. intros i Hi%elem_of_seq. lia. }
        destruct reverse; [|done].
        apply Forall_forall. intros i Hi. rewrite Forall_forall in Hseq.
        apply Hseq. by apply rev_elem_of. }
    split; [done|]. intros Hall. rewrite Heq, until_rejected_all by done.
    split; [done|].
    assert (∀ indices,
              Forall (λ i, (i < length (items_ (tab w)))%nat) indices →
              length (child_views w indices) = (2 * length indices)%nat)
      as Hlen.
    { induction indices as [|i indices IH]; intros Hf; [done|].
      apply Forall_cons in Hf as [Hi Hf]. unfold child_views.
      cbn [mbind list_bind]. fold (child_views w indices).
      destruct (lookup_lt_is_Some_2 (items_ (tab w)) i Hi) as [it ->].
      destruct (lookup_lt_is_Some_2 (pages_ w) i ltac:(lia)) as [pg ->].
      rewrite length_app, IH by done. cbn. lia. }
    rewrite Hlen.
    + destruct reverse; rewrite ?length_rev, length_seq; done.
    + apply Forall_forall. intros i Hi.
      assert (i ∈ seq 0 (length (items_ (tab w)))) as Hi'
        by (destruct reverse; [by apply rev_elem_of | done]).
      apply elem_of_seq in Hi'. lia.
  - generalize (seq 0 (length (items_ (tab w)))). intros l.
    induction l as [|i l IH]; [done|].
    cbn [rev fmap list_fmap]. unfold child_views in *.
    rewrite bind_app, IH. cbn [mbind list_bind].
    rewrite join_app. cbn [mjoin list_join]. by rewrite !app_nil_r.
Qed.

(** ** Font, color and scale, continued *)

Lemma shown_views w w' :
  (∀ p, visible <$> views w' !! p = visible <$> views w !! p) →
  ∀ p, shown w' p = shown w p.
Proof.
  intros H p. specialize (H p). unfold shown.
  destruct (views w' !! p), (views w !! p); cbn in H; congruence.
Qed.

Lemma visible_foldr_alter (f : View → View) l (m : gmap ViewPtr View) p :
  (∀ v, visible (f v) = visible v) →
  visible <$> foldr (alter f) m l !! p = visible <$> m !! p.
Proof.
  intros Hf. induction l as [|a l IH]; [done|]. cbn [foldr].
  destruct (decide (a = p)) as [->|Hne].
  - rewrite lookup_alter_eq, <- IH.
    destruct (foldr (alter f) m l !! p); cbn; [by rewrite Hf | done].
  - by rewrite lookup_alter_ne.
Qed.

(** X19. What a change of font, color or display scale leaves alone:
    [SetFont], [SetColor] and [OnDPIChanged] keep the items in their
    order with their titles, selection flags and callbacks, keep the
    selected item and index, the page sequence and the visibility of
    every page. They also keep the measured size of every item: the items
    are not measured again, so that after a change of font or scale an
    item has the size that [SetTitle] computed with the font and the scale
    of before. *)
Theorem property_changes_keep_items f c s w :
  let kept (w' : World) :=
    (λ it, (get it, title_ it, size_ it, selected_ it, on_select it))
      <$> items_ (tab w')
    = (λ it, (get it, title_ it, size_ it, selected_ it, on_select it))
      <$> items_ (tab w)
    ∧ selected_item_ (tab w') = selected_item_ (tab w)
    ∧ selected_item_index_ (tab w') = selected_item_index_ (tab w)
    ∧ pages_ w' = pages_ w
    ∧ (∀ p, shown w' p = shown w p) in
  kept (SetFont f w)
  ∧ kept (SetColor c w)
  ∧ kept (OnDPIChanged (with_tab (with_base (set_scale_factor s)) w)).
Proof.
  cbv beta zeta.
  assert (∀ w0,
    (λ it, (get it, title_ it, size_ it, selected_ it, on_select it))
      <$> items_ (tab w0)
    = (λ it, (get it, title_ it, size_ it, selected_ it, on_select it))
      <$> items_ (tab w) →
    selected_item_ (tab w0) = selected_item_ (tab w) →
    selected_item_index_ (tab w0) = selected_item_index_ (tab w) →
    pages_ w0 = pages_ w →
    (∀ p, shown w0 p = shown w p) →
    (λ it, (get it, title_ it, size_ it, selected_ it, on_select it))
      <$> items_ (tab (Layout w0))
    = (λ it, (get it, title_ it, size_ it, selected_ it, on_select it))
      <$> items_ (tab w)
    ∧ selected_item_ (tab (Layout w0)) = selected_item_ (tab w)
    ∧ selected_item_index_ (tab (Layout w0)) = selected_item_index_ (tab w)
    ∧ pages_ (Layout w0) = pages_ w
    ∧ (∀ p, shown (Layout w0) p = shown w p)) as HL.
  { intros w0 H1 H2 H3 H4 H5.
    destruct (Layout_fields w0) as (_ & -> & -> & -> & _).
    rewrite Layout_items by done. split_and!; try done.
    intros p. by rewrite shown_Layout. }
  split; [|split].
  - rewrite SetFont_eq. apply HL; try done.
    cbn. rewrite <- list_fmap_compose. by apply list_fmap_ext.
  - split_and!; try done.
    cbn. rewrite <- list_fmap_compose. by apply list_fmap_ext.
  - rewrite OnDPIChanged_eq. cbn zeta. apply HL; try done.
    + cbn. rewrite <- list_fmap_compose. by apply list_fmap_ext.
    + apply shown_views. intros q. cbn [views with_tab tab pages_].
      by apply visible_foldr_alter.
Qed.

(** ** Adding a page from the enclosing widget *)

(** X20. [Tab::PlatformAddPage] on a container that has items, for an
    enclosing widget that has pages: the call runs, the view is parented
    and hidden (whichever view it is, the selected page included), no
    other page is shown or hidden, one item is appended, the selected item
    and index stay and no notification is emitted. On a container with
    neither items nor selection whose enclosing widget has no page yet,
    the call has no result: selecting the first item calls [SetVisible]
    through the null pointer that [PageAt(0)] returns. *)
Theorem PlatformAddPage_later_page title view w :
  (items_ (tab w) ≠ [] → pages_ w ≠ [] →
   ∃ w', PlatformAddPage title view w = Some w'
     ∧ shown w' view = false
     ∧ (∀ p, p ≠ view → shown w' p = shown w p)
     ∧ parented <$> views w' !! view = (λ _, true) <$> views w !! view
     ∧ get <$> items_ (tab w') = (get <$> items_ (tab w)) ++ [next_item w]
     ∧ selected_item_ (tab w') = selected_item_ (tab w)
     ∧ selected_item_index_ (tab w') = selected_item_index_ (tab w)
     ∧ log w' = log w
         ++ [Invalidate_item (next_item w); Layout_run; Invalidate_tab])
  ∧ (items_ (tab w) = [] → pages_ w = [] →
     PlatformAddPage title view w = None).
Proof.
  unfold TabWin.PlatformAddPage. cbn zeta. split.
  - intros Hitems Hpages.
    rewrite decide_True
      by (cbn [with_views pages_]; destruct (pages_ w); [done | cbn; lia]).
    rewrite AddPage_eq. cbn zeta.
    cbn [with_views tab pages_ views log next_item].
    destruct (items_ (tab w)) as [|it l] eqn:E; [done|].
    eexists. split; [done|].
    match goal with |- context [Layout ?w0] =>
      destruct (Layout_fields w0) as (_ & -> & -> & _ & _ & ->);
      pose proof (λ p, shown_Layout w0 p) as Hsh;
      pose proof (Layout_items get w0 (λ _ _, eq_refl)) as ->;
      pose proof (Layout_eq w0) as Hviews
    end.
    cbn [tab with_items items_ selected_item_ selected_item_index_ log].
    rewrite E, fmap_app. split_and!; try done.
    + rewrite Hsh. unfold shown. cbn [views].
      rewrite lookup_alter_eq.
      by destruct (alter (View_SetParent true) view (views w) !! view).
    + intros p Hne. rewrite Hsh. unfold shown. cbn [views].
      by rewrite !lookup_alter_ne.
    + rewrite Hviews. cbn zeta. cbn [views].
      match goal with |- context [GetSelectedPage ?w0] =>
        destruct (GetSelectedPage w0) as [page|] end.
      * destruct (decide (page = view)) as [->|Hne].
        -- rewrite !lookup_alter_eq. by destruct (views w !! view).
        -- rewrite lookup_alter_ne by done.
           rewrite !lookup_alter_eq. by destruct (views w !! view).
      * rewrite !lookup_alter_eq. by destruct (views w !! view).
    + by rewrite <- app_assoc.
  - intros Hitems Hpages.
    assert (pages_ (with_views (alter (View_SetParent true) view) w) = [])
      as Hpages' by done.
    rewrite decide_False by (rewrite Hpages'; cbn; lia).
    rewrite AddPage_eq. cbn zeta. cbn [with_views tab]. rewrite Hitems.
    rewrite SetSelectedItem_halves.
    destruct (deselect _) as [wd|] eqn:Hd; [|done].
    cbn [mbind option_bind].
    apply deselect_Some in Hd as (_ & _ & _ & Hp & _).
    unfold TabWin.select. cbn zeta.
    assert (pages_ wd = []) as Hwd by (rewrite Hp; exact Hpages).
    unfold PageAt at 1. rewrite Hwd. by case_match.
Qed.

(** X21. [Tab::PlatformRemovePage(index, view)] unparents the view and
    does to the container what [RemovePageAt(index)] does; it shows and
    hides no page, so that the page of a removed tab stays as visible as
    it was, and it leaves the page sequence to the enclosing widget. With
    an index out of range, unparenting the view is all it does. *)
Theorem PlatformRemovePage_unparents index view w :
  let w' := PlatformRemovePage index view w in
  parented <$> views w' !! view = (λ _, false) <$> views w !! view
  ∧ (∀ p, shown w' p = shown w p)
  ∧ pages_ w' = pages_ w
  ∧ tab w' = tab (RemovePageAt index w)
  ∧ (index < 0 ∨ Z.of_nat (length (items_ (tab w))) ≤ index →
     w' = with_views (alter (View_SetParent false) view) w).
Proof.
  cbn zeta. unfold TabWin.PlatformRemovePage. cbn zeta.
  set (w0 := with_views (alter (View_SetParent false) view) w).
  assert (tab w0 = tab w ∧ pages_ w0 = pages_ w) as [Ht Hp] by done.
  split_and!.
  - destruct (decide (0 ≤ index < Z.of_nat (length (items_ (tab w0)))))
      as [Hidx|Hout].
    + destruct (RemovePageAt_in_range index w0 Hidx) as (t & -> & _).
      rewrite Layout_eq. cbn zeta. cbn [views with_tab].
      match goal with |- context [GetSelectedPage ?w1] =>
        destruct (GetSelectedPage w1) as [page|] end.
      * destruct (decide (page = view)) as [->|Hne].
        -- subst w0. cbn [views with_views].
           rewrite !lookup_alter_eq. by destruct (views w !! view).
        -- rewrite lookup_alter_ne by done. subst w0. cbn [views with_views].
           rewrite lookup_alter_eq. by destruct (views w !! view).
      * subst w0. cbn [views with_views].
        rewrite lookup_alter_eq. by destruct (views w !! view).
    + rewrite RemovePageAt_out_of_range by lia. subst w0.
      cbn [views with_views].
      rewrite lookup_alter_eq. by destruct (views w !! view).
  - intros p. rewrite RemovePageAt_shown. subst w0.
    by apply shown_alter.
  - destruct (decide (0 ≤ index < Z.of_nat (length (items_ (tab w0)))))
      as [Hidx|Hout].
    + destruct (RemovePageAt_in_range index w0 Hidx) as (t & -> & _).
      by rewrite Layout_eq.
    + rewrite RemovePageAt_out_of_range by lia. done.
  - unfold TabWin.RemovePageAt. cbn zeta. rewrite Ht.
    case_match; [done|]. rewrite !Layout_eq. cbn zeta.
    by destruct w.
  - intros Hout. apply RemovePageAt_out_of_range. by rewrite Ht.
Qed.


End Facts.

(** ** Runs *)

Import Run.

Lemma SetSelectedItem_twice_witness :
  ∃ w2,
    SetSelectedItem MeasureText 1%positive reselected_world = Some w2
    ∧ log reselected_world = log one_page_world
        ++ [Layout_run; Invalidate_tab; on_selected_page_change_Emit]
    ∧ log w2 = log one_page_world
        ++ [Layout_run; Invalidate_tab; on_selected_page_change_Emit]
        ++ [Layout_run; Invalidate_tab; on_selected_page_change_Emit]
    ∧ selected_item_ (tab w2) = selected_item_ (tab reselected_world)
    ∧ GetSelectedPageIndex w2 = GetSelectedPageIndex reselected_world
    ∧ pages_ w2 = pages_ reselected_world
    ∧ (∀ p, shown w2 p = shown reselected_world p)
    ∧ visible_pages w2 = visible_pages reselected_world.
Proof.
  apply (SetSelectedItem_twice MeasureText 1%positive one_page_world
           reselected_world).
  by vm_compute.
Defined.

Lemma AddPage_appends_and_selects_first_witness :
  ∃ w', AddPage MeasureText a_view "A" one_registered_page = Some w'
        ∧ GetSelectedPageIndex w' = 0.
Proof.
  destruct (proj1 (proj2 (AddPage_appends_and_selects_first MeasureText a_view
                            "A" one_registered_page))
              eq_refl eq_refl 1%positive eq_refl)
    as (w' & H1 & H2 & _).
  by exists w'.
Defined.

(** C6, as the claim has it for the color: in a container with one page,
    whose cache holds the strip height 20, setting the color leaves 20 in
    the cache and logs a repaint request and no run of [Layout]; the
    result depends on what the cache held, so the cache was not
    invalidated. *)
Lemma SetColor_keeps_items_height :
  items_height_ (tab one_page_world) = 20
  ∧ items_height_ (tab (SetColor 255%N one_page_world)) = 20
  ∧ log (SetColor 255%N one_page_world)
    = log one_page_world ++ [Invalidate_tab]
  ∧ ¬ invalidates_items_height (SetColor 255%N).
Proof.
  split_and!; [by vm_compute..|].
  intros H. specialize (H one_page_world 20).
  apply (f_equal (λ w, items_height_ (tab w))) in H. by vm_compute in H.
Qed.

(** C1. Three pages, the second one selected, and the second page removed:
    the selected index is 2, the position that the next item had before
    the removal, although two items and two pages are left and the item
    now sits at index 1; no page is shown; and selecting the first page
    afterwards calls [SetVisible] through a null pointer. Removing the last
    page while it is selected does wrap the index to 0, and shows no page
    either. *)
Theorem RemovePageAt_selected_middle_of_three :
  selection <$> second_selected
  = Some (1, Some 2%positive, [1%positive; 2%positive; 3%positive],
          [1%positive; 2%positive; 3%positive], [2%positive])
  ∧ selection <$> second_removed
    = Some (2, Some 3%positive, [1%positive; 3%positive],
            [1%positive; 3%positive], [])
  ∧ second_removed ≫= SelectPageAt MeasureText 0 = None
  ∧ selection <$> last_removed
    = Some (0, Some 1%positive, [1%positive; 2%positive],
            [1%positive; 2%positive], []).
Proof. by vm_compute. Qed.

(** C2. The selection invariant holds after the pages are added and after
    a page is selected. It fails after the selected page is removed (out
    of three: the index is out of range and no page is shown; as soon as
    [RemovePageAt] returns, the index 2 is past the two items left and the
    page shown is the one of the erased item), and after a page before the
    selected one is removed (out of two: the index 1 stays, for one item
    and one page). *)
Theorem selection_inv_lost_by_RemovePageAt :
  selection_inv <$> three_pages = Some true
  ∧ selection_inv <$> second_selected = Some true
  ∧ selection_inv <$> second_removed = Some false
  ∧ index_valid <$> second_removed = Some false
  ∧ selection_inv <$> second_item_removed = Some false
  ∧ selection <$> second_item_removed
    = Some (2, Some 3%positive, [1%positive; 3%positive],
            [1%positive; 2%positive; 3%positive], [2%positive])
  ∧ selection_inv <$> last_removed = Some false
  ∧ selection_inv <$> first_removed = Some false
  ∧ selection <$> first_removed
    = Some (1, Some 2%positive, [2%positive], [2%positive], [2%positive]).
Proof. by vm_compute. Qed.

Lemma one_page_world_reachable :
  reachable MeasureText a_view (λ _ v, v) one_page_world.
Proof.
  apply (reach_AddPage MeasureText a_view (λ _ v, v) "A"
           first_page_registered).
  - unfold first_page_registered, empty_tab.
    apply reach_enclosing, reach_new.
  - by vm_compute.
Qed.

Lemma reachable_click_selects_witness :
  on_select first_item = Some CallSetSelectedItem
  ∧ find_if (items_ (tab one_page_world)) (get first_item) = 0%nat.
Proof.
  destruct (reachable_click_selects MeasureText a_view (λ _ v, v)
              one_page_world 0%nat first_item one_page_world_reachable)
    as (H1 & H2 & _); [by vm_compute|].
  split; [exact H1 | exact H2].
Defined.

Lemma reachable_strip_height_witness :
  (GetItemsHeight MeasureText (tab one_page_world)).1
  = measured_items_height MeasureText (base (tab one_page_world)).
Proof.
  apply (reachable_strip_height MeasureText a_view (λ _ v, v)
           one_page_world one_page_world_reachable).
Defined.

Lemma RemovePageAt_keeps_agreement_witness :
  selection_agrees (RemovePageAt MeasureText 2 last_selected_world).
Proof.
  apply (RemovePageAt_keeps_agreement MeasureText 2 last_selected_world).
  - exists last_item. by vm_compute.
  - by vm_compute.
  - right. by vm_compute.
Defined.


Lemma Layout_places_items_witness :
  ∃ it', items_ (tab (Layout MeasureText one_page_world)) !! 0%nat = Some it'
         ∧ x (origin (size_allocation (view it'))) = 0.
Proof.
  destruct (Layout_places_items MeasureText one_page_world 0%nat
              {| get := 1%positive;
                 view := {| font := 1%positive; color := 0%N;
                            scale_factor := 5 # 4;
                            size_allocation :=
                              {| origin := {| x := 0; y := 0 |};
                                 extent := {| width := 13; height := 20 |} |};
                            state := Pressed |};
                 selected_ := true; title_ := "A";
                 size_ := {| width := 13; height := 18 |};
                 on_select := Some CallSetSelectedItem |})
    as (it' & H1 & H2 & _); [by vm_compute|].
  exists it'. split; [exact H1 | exact H2].
Defined.

End TabFacts.
